(** * Retrieval core of the RAG notebooks: chunking, breakpoints, ranking, scoring

    A shallow embedding of the functions defined in the notebooks
    (semantic chunking, context-enriched retrieval, chunk-size selection)
    together with the properties their specification states about them.

    Conventions.
    - A Python [int] is a [Z]; list positions produced by [enumerate] are [nat].
    - A NumPy / Python float is an IEEE binary64 value, Rocq's primitive
      [float].  Sums are accumulated left to right; NumPy may add in
      another order, and no result below depends on the order.
    - A Python exception is a value [Raise e] of the [result] type.
    - The two library sorts the code calls, [np.argsort] and [list.sort],
      are interfaces (type classes) with the contract their documentation
      gives: NumPy's default sort is not stable, so the order of equal
      values is left open; Python's is stable as long as its keys can be
      compared, and only a permutation when a key is a NaN.
    - The embedding and completion services, the statistics of NumPy that
      the code only calls ([percentile], [mean], [std]) and Python's
      [float(...)] parser are interfaces too; a reference instance of
      each is given so that every function can be run. *)

From Stdlib Require Import ZArith List Bool Lia String Ascii Floats.
From Stdlib Require Import Sorted Permutation PeanoNat.
Import ListNotations.

(* ================================================================== *)
(** * Python runtime: exceptions, indexing, slicing, range, strings *)
(* ================================================================== *)

Module Py.

Inductive exn : Set :=
| ValueError
| IndexError.

Inductive result (A : Type) : Type :=
| Ok (x : A)
| Raise (e : exn).

Arguments Ok {A} x.
Arguments Raise {A} e.

Definition bind {A B : Type} (m : result A) (f : A -> result B) : result B :=
  match m with
  | Ok x => f x
  | Raise e => Raise e
  end.

(** A list comprehension whose body may raise: the first exception wins. *)
Fixpoint mapM {A B : Type} (f : A -> result B) (l : list A) : result (list B) :=
  match l with
  | [] => Ok []
  | x :: t =>
      match f x with
      | Ok y =>
          match mapM f t with
          | Ok ys => Ok (y :: ys)
          | Raise e => Raise e
          end
      | Raise e => Raise e
      end
  end.

(** [enumerate(l)] *)
Definition enumerate {A : Type} (l : list A) : list (nat * A) :=
  combine (seq 0 (List.length l)) l.

(** Bound of a slice with step 1, as CPython adjusts it: a negative bound
    counts from the end, and the result is clamped to [0, len]. *)
Definition adjust_index (len i : Z) : Z :=
  if (i <? 0)%Z then Z.max 0 (i + len) else Z.min i len.

(** [l[lo:hi]]; [None] is an omitted bound. *)
Definition slice {A : Type} (l : list A) (lo hi : option Z) : list A :=
  let len := Z.of_nat (List.length l) in
  let a := match lo with Some i => adjust_index len i | None => 0%Z end in
  let b := match hi with Some i => adjust_index len i | None => len end in
  firstn (Z.to_nat (b - a)) (skipn (Z.to_nat a) l).

(** [s[lo:hi]] on a string. *)
Definition str_slice (s : string) (lo hi : Z) : string :=
  let len := Z.of_nat (String.length s) in
  let a := adjust_index len lo in
  let b := adjust_index len hi in
  substring (Z.to_nat a) (Z.to_nat (b - a)) s.

(** [l[i]]: a negative index counts from the end; out of range raises. *)
Definition getitem {A : Type} (l : list A) (i : Z) : result A :=
  let len := Z.of_nat (List.length l) in
  let j := if (i <? 0)%Z then (i + len)%Z else i in
  if ((0 <=? j) && (j <? len))%Z then
    match nth_error l (Z.to_nat j) with
    | Some x => Ok x
    | None => Raise IndexError
    end
  else Raise IndexError.

(** Number of elements of [range(start, stop, step)], [step <> 0]. *)
Definition range_len (start stop step : Z) : Z :=
  if (0 <? step)%Z then
    if (start <? stop)%Z then ((stop - start - 1) / step + 1)%Z else 0%Z
  else
    if (stop <? start)%Z then ((start - stop - 1) / (- step) + 1)%Z else 0%Z.

Definition range_list (start stop step : Z) : list Z :=
  map (fun j => (start + Z.of_nat j * step)%Z)
      (seq 0 (Z.to_nat (range_len start stop step))).

(** [range(start, stop, step)]: a zero step raises [ValueError]. *)
Definition range (start stop step : Z) : result (list Z) :=
  if (step =? 0)%Z then Raise ValueError else Ok (range_list start stop step).

(** [range(start, stop)] *)
Definition range2 (start stop : Z) : list Z := range_list start stop 1.

(** [sep.join(l)] *)
Definition join (sep : string) (l : list string) : string := String.concat sep l.

(** ASCII white space, as [str.isspace] sees it. *)
Definition is_space (c : ascii) : bool :=
  let n := nat_of_ascii c in
  ((9 <=? n) && (n <=? 13) || (28 <=? n) && (n <=? 32))%nat.

Fixpoint lstrip (s : string) : string :=
  match s with
  | String c t => if is_space c then lstrip t else s
  | EmptyString => EmptyString
  end.

Fixpoint rstrip (s : string) : string :=
  match s with
  | String c t =>
      match rstrip t with
      | EmptyString => if is_space c then EmptyString else String c EmptyString
      | t' => String c t'
      end
  | EmptyString => EmptyString
  end.

(** [s.strip()] *)
Definition strip (s : string) : string := rstrip (lstrip s).

(** [l.sort(key=key, reverse=True)] with float keys: the list after the
    call.  The method is the interpreter's, not the notebooks'. *)
Class ListSort : Type := {
  sort_by_key_desc : forall {A : Type}, (A -> float) -> list A -> list A
}.

(** Two keys tie when neither is below the other under [<]. *)
Definition tie (a b : float) : bool :=
  (negb (a <? b) && negb (b <? a))%float.

(** What [list.sort] does with any keys: it rearranges the list. *)
Definition permutes (S : ListSort) : Prop :=
  forall (A : Type) (key : A -> float) (l : list A),
    Permutation (sort_by_key_desc key l) l.

(** The contract of [list.sort(key=..., reverse=True)].  With keys that
    [<] compares consistently (floats none of which is a NaN) the list
    comes out in descending order of key, and the elements whose keys tie
    with a given number keep their original order (the sort is stable,
    also in reverse).  With a NaN among the keys only the rearrangement
    is promised. *)
Definition sorts (S : ListSort) : Prop :=
  permutes S /\
  forall (A : Type) (key : A -> float) (l : list A),
    Forall (fun x => is_nan (key x) = false) l ->
    StronglySorted (fun x y => (key x <? key y)%float = false)
                   (sort_by_key_desc key l) /\
    forall v : float,
      is_nan v = false ->
      filter (fun x => tie (key x) v) (sort_by_key_desc key l)
      = filter (fun x => tie (key x) v) l.

End Py.

Import Py.

Notation "x <- e ;; k" := (Py.bind e (fun x => k))
  (at level 61, e at next level, right associativity).

(* ================================================================== *)
(** * NumPy: dot product, norm, the sort order of floats, argsort *)
(* ================================================================== *)

Module Np.

Local Open Scope float_scope.

(** Sum of the pairwise products, accumulated from 0. *)
Definition dot_sum (a b : list float) : float :=
  fold_left (fun acc p => acc + fst p * snd p) (combine a b) 0.

(** [np.dot(a, b)] on two vectors: shapes that differ raise [ValueError]. *)
Definition dot (a b : list float) : result float :=
  if (List.length a =? List.length b)%nat then Ok (dot_sum a b) else Raise ValueError.

(** [np.linalg.norm(a)] of a vector: the square root of [a . a]. *)
Definition norm (a : list float) : float := sqrt (dot_sum a a).

(** The order NumPy sorts floats by: [a < b], with every NaN after every
    number. *)
Definition lt (a b : float) : bool :=
  (a <? b) || (is_nan b && negb (is_nan a)).

(** [np.argsort(a)] with the default kind: the positions of [a], as
    NumPy's own sort orders them. *)
Class Argsort : Type := {
  argsort : list float -> list nat
}.

(** What [np.argsort] returns has every position of the array once. *)
Definition permutes (S : Argsort) : Prop :=
  forall a : list float, Permutation (argsort a) (seq 0 (List.length a)).

(** The contract of [np.argsort]: the positions come in ascending order of
    value, in the order above: no value is below one listed before it.
    The default kind is not stable: the contract says nothing about the
    order of the positions of equal values. *)
Definition sorts (S : Argsort) : Prop :=
  permutes S /\
  forall a : list float,
    StronglySorted (fun i j => lt (nth j a nan) (nth i a nan) = false)
                   (argsort a).

(** The NumPy statistics the code calls without defining them.
    [percentile a q] may raise (a percentile outside [0, 100]). *)
Class Stats : Type := {
  percentile : list float -> float -> result float;
  mean : list float -> float;
  std : list float -> float
}.

End Np.

(* ================================================================== *)
(** * External collaborators *)
(* ================================================================== *)

(** The embedding service: text to vector. *)
Class Embedder : Type := {
  get_embedding : string -> list float
}.

(** The completion service used as a judge: system prompt and user
    message to the content of the reply. *)
Class Judge : Type := {
  chat_completion : string -> string -> string
}.

(** Python's [float(s)] on a string: [None] stands for [ValueError]. *)
Class FloatParser : Type := {
  parse_float : string -> option float
}.

(* ================================================================== *)
(** * Cosine similarity (the same definition in all three notebooks) *)
(* ================================================================== *)

Definition cosine_similarity (vec1 vec2 : list float) : result float :=
  d <- Np.dot vec1 vec2 ;;
  Ok (d / (Np.norm vec1 * Np.norm vec2))%float.

(* ================================================================== *)
(** * Semantic chunking notebook *)
(* ================================================================== *)

Section SemanticChunking.

Context {stats : Np.Stats} {embedder : Embedder} {sorter : Np.Argsort}.

Definition compute_breakpoints (similarities : list float) (method : string)
    (threshold : float) : result (list nat) :=
  threshold_value <-
    (if String.eqb method "percentile" then
       Np.percentile similarities threshold
     else if String.eqb method "standard_deviation" then
       let mean := Np.mean similarities in
       let std_dev := Np.std similarities in
       Ok (mean - threshold * std_dev)%float
     else if String.eqb method "interquartile" then
       q1 <- Np.percentile similarities 25%float ;;
       q3 <- Np.percentile similarities 75%float ;;
       Ok (q1 - 1.5 * (q3 - q1))%float
     else Raise ValueError) ;;
  Ok (map fst
        (filter (fun p => (snd p <? threshold_value)%float)
                (enumerate similarities))).

Definition split_into_chunks (sentences : list string) (breakpoints : list Z)
    : list string :=
  let loop :=
    fold_left
      (fun st bp =>
         let chunks := fst st in
         let start := snd st in
         (chunks ++ [(join ". " (slice sentences (Some start) (Some (bp + 1)%Z))
                      ++ ".")%string],
          (bp + 1)%Z))
      breakpoints ([], 0%Z) in
  fst loop ++ [join ". " (slice sentences (Some (snd loop)) None)].

Definition semantic_search (query : string) (text_chunks : list string)
    (chunk_embeddings : list (list float)) (k : Z) : result (list string) :=
  let query_embedding := get_embedding query in
  similarities <- mapM (cosine_similarity query_embedding) chunk_embeddings ;;
  let top_indices := rev (slice (Np.argsort similarities) (Some (- k)%Z) None) in
  mapM (fun i => getitem text_chunks (Z.of_nat i)) top_indices.

End SemanticChunking.

(* ================================================================== *)
(** * Context-enriched retrieval notebook *)
(* ================================================================== *)

Section ContextEnriched.

Context {embedder : Embedder} {list_sorter : ListSort}.

Definition chunk_text (text : string) (n overlap : Z) : result (list string) :=
  starts <- range 0 (Z.of_nat (String.length text)) (n - overlap) ;;
  Ok (map (fun i => str_slice text i (i + n)) starts).

Definition context_enriched_search (query : string) (text_chunks : list string)
    (embeddings : list (list float)) (k context_size : Z)
    : result (list string) :=
  let query_embedding := get_embedding query in
  similarity_scores <-
    mapM (fun p =>
            similarity_score <- cosine_similarity query_embedding (snd p) ;;
            Ok (fst p, similarity_score))
         (enumerate embeddings) ;;
  let sorted_scores := sort_by_key_desc snd similarity_scores in
  best <- getitem sorted_scores 0 ;;
  let top_index := Z.of_nat (fst best) in
  let start := Z.max 0 (top_index - context_size) in
  let end_ := Z.min (Z.of_nat (List.length text_chunks))
                    (top_index + context_size + 1) in
  mapM (getitem text_chunks) (range2 start end_).

End ContextEnriched.

(* ================================================================== *)
(** * Chunk-size selection notebook: retrieval and the evaluator *)
(* ================================================================== *)

(** Programs that print and may raise.  The lines printed so far are
    threaded through, and survive an exception. *)
Module IO.

Definition io (A : Type) : Type := list string -> result A * list string.

Definition ret {A : Type} (x : A) : io A := fun out => (Ok x, out).

Definition bind {A B : Type} (m : io A) (f : A -> io B) : io B :=
  fun out =>
    match m out with
    | (Ok x, out') => f x out'
    | (Raise e, out') => (Raise e, out')
    end.

Definition raise {A : Type} (e : exn) : io A := fun out => (Raise e, out).

(** [print(line)] *)
Definition print (line : string) : io unit := fun out => (Ok tt, out ++ [line]).

(** [try: body / except ValueError: handler]; any other exception
    propagates. *)
Definition try_except_ValueError {A : Type} (body handler : io A) : io A :=
  fun out =>
    match body out with
    | (Raise ValueError, out') => handler out'
    | r => r
    end.

End IO.

Notation "x <-- e ;;; k" := (IO.bind e (fun x => k))
  (at level 61, e at next level, right associativity).

Definition nl : string := String (ascii_of_nat 10) EmptyString.

(** The score bands, as [str.format] renders them into the prompts. *)
Definition SCORE_FULL : string := "1.0".
Definition SCORE_PARTIAL : string := "0.5".
Definition SCORE_NONE : string := "0.0".

(** [FAITHFULNESS_PROMPT_TEMPLATE.format(...)] *)
Definition faithfulness_prompt_format (question response true_answer full partial none : string)
    : string :=
  String.concat nl
    [ "";
      "Evaluate the faithfulness of the AI response compared to the true answer.";
      "User Query: " ++ question;
      "AI Response: " ++ response;
      "True Answer: " ++ true_answer;
      "";
      "Faithfulness measures how well the AI response aligns with facts in the true answer, without hallucinations.";
      "";
      "INSTRUCTIONS:";
      "- Score STRICTLY using only these values:";
      "    * " ++ full ++ " = Completely faithful, no contradictions with true answer";
      "    * " ++ partial ++ " = Partially faithful, minor contradictions";
      "    * " ++ none ++ " = Not faithful, major contradictions or hallucinations";
      "- Return ONLY the numerical score (" ++ full ++ ", " ++ partial ++ ", or " ++ none
        ++ ") with no explanation or additional text.";
      "" ]%string.

(** [RELEVANCY_PROMPT_TEMPLATE.format(...)] *)
Definition relevancy_prompt_format (question response full partial none : string) : string :=
  String.concat nl
    [ "";
      "Evaluate the relevancy of the AI response to the user query.";
      "User Query: " ++ question;
      "AI Response: " ++ response;
      "";
      "Relevancy measures how well the response addresses the user's question.";
      "";
      "INSTRUCTIONS:";
      "- Score STRICTLY using only these values:";
      "    * " ++ full ++ " = Completely relevant, directly addresses the query";
      "    * " ++ partial ++ " = Partially relevant, addresses some aspects";
      "    * " ++ none ++ " = Not relevant, fails to address the query";
      "- Return ONLY the numerical score (" ++ full ++ ", " ++ partial ++ ", or " ++ none
        ++ ") with no explanation or additional text.";
      "" ]%string.

Definition evaluator_system_prompt : string :=
  "You are an objective evaluator. Return ONLY the numerical score.".

Definition faithfulness_warning : string :=
  "Warning: Could not parse faithfulness score, defaulting to 0".

Definition relevancy_warning : string :=
  "Warning: Could not parse relevancy score, defaulting to 0".

Section ChunkSizeSelector.

Context {embedder : Embedder} {judge : Judge} {parser : FloatParser}
        {sorter : Np.Argsort}.

(** [create_embeddings(texts)]: one vector per text, in order. *)
Definition create_embeddings (texts : list string) : list (list float) :=
  map get_embedding texts.

Definition retrieve_relevant_chunks (query : string) (text_chunks : list string)
    (chunk_embeddings : list (list float)) (k : Z) : result (list string) :=
  query_embedding <- getitem (create_embeddings [query]) 0 ;;
  similarities <- mapM (cosine_similarity query_embedding) chunk_embeddings ;;
  let top_indices := rev (slice (Np.argsort similarities) (Some (- k)%Z) None) in
  mapM (fun i => getitem text_chunks (Z.of_nat i)) top_indices.

(** [float(s)] *)
Definition py_float (s : string) : IO.io float :=
  match parse_float s with
  | Some x => IO.ret x
  | None => IO.raise ValueError
  end.

Definition evaluate_response (question response true_answer : string)
    : IO.io (float * float) :=
  let faithfulness_prompt :=
    faithfulness_prompt_format question response true_answer
      SCORE_FULL SCORE_PARTIAL SCORE_NONE in
  let relevancy_prompt :=
    relevancy_prompt_format question response SCORE_FULL SCORE_PARTIAL SCORE_NONE in
  let faithfulness_response := chat_completion evaluator_system_prompt faithfulness_prompt in
  let relevancy_response := chat_completion evaluator_system_prompt relevancy_prompt in
  faithfulness_score <--
    IO.try_except_ValueError
      (py_float (strip faithfulness_response))
      (_ <-- IO.print faithfulness_warning ;;; IO.ret 0%float) ;;;
  relevancy_score <--
    IO.try_except_ValueError
      (py_float (strip relevancy_response))
      (_ <-- IO.print relevancy_warning ;;; IO.ret 0%float) ;;;
  IO.ret (faithfulness_score, relevancy_score).

End ChunkSizeSelector.

(* ================================================================== *)
(** * Reference instances of the interfaces, to run the code on examples *)
(* ================================================================== *)

Module Reference.

Local Open Scope float_scope.

(** Stable insertion: [x] goes before the first element it is strictly
    less than, hence after every element it is not less than. *)
Fixpoint insert_by {A : Type} (lt : A -> A -> bool) (x : A) (l : list A) : list A :=
  match l with
  | [] => [x]
  | y :: t => if lt x y then x :: l else y :: insert_by lt x t
  end.

(** The stable sort of a list under a strict comparison, by insertion. *)
Definition stable_sort {A : Type} (lt : A -> A -> bool) (l : list A) : list A :=
  fold_left (fun acc x => insert_by lt x acc) l [].

(** An [np.argsort] that keeps the positions of equal values in their
    original order. *)
#[export] Instance sorter : Np.Argsort :=
  {| Np.argsort := fun a =>
       map fst (stable_sort (fun p q => Np.lt (snd p) (snd q)) (enumerate a)) |}.

(** An [np.argsort] that lists the positions of equal values from the
    last to the first. *)
Definition ties_reversed : Np.Argsort :=
  {| Np.argsort := fun a =>
       map fst (stable_sort (fun p q => Np.lt (snd p) (snd q)) (rev (enumerate a))) |}.

Fixpoint float_of_nat (n : nat) : float :=
  match n with
  | O => 0
  | S m => float_of_nat m + 1
  end.

Definition sum (a : list float) : float := fold_left add a 0.

Definition mean (a : list float) : float := sum a / float_of_nat (List.length a).

(** Population standard deviation. *)
Definition std (a : list float) : float :=
  let m := mean a in
  sqrt (mean (map (fun x => (x - m) * (x - m)) a)).

(** The largest [j <= n] with [j <= v], for [0 <= v]. *)
Fixpoint floor_upto (v : float) (n : nat) : nat :=
  match n with
  | O => O
  | S m => if float_of_nat n <=? v then n else floor_upto v m
  end.

(** Percentile by linear interpolation between the closest ranks. *)
Definition percentile (a : list float) (p : float) : result float :=
  let q := p / 100 in
  if (0 <=? q) && (q <=? 1) then
    match a with
    | [] => Raise IndexError
    | _ =>
        if existsb is_nan a then Ok nan
        else
          let s := stable_sort Np.lt a in
          let n := List.length a in
          let v := float_of_nat (n - 1) * q in
          let lo := floor_upto v (n - 1) in
          let hi := Nat.min (lo + 1) (n - 1) in
          let g := v - float_of_nat lo in
          let x := nth lo s 0 in
          let y := nth hi s 0 in
          Ok (if g <? 0.5 then x + (y - x) * g else y - (y - x) * (1 - g))
    end
  else Raise ValueError.

#[export] Instance stats : Np.Stats :=
  {| Np.percentile := percentile; Np.mean := mean; Np.std := std |}.

(** A toy embedding: the length of the text and the number of its
    blanks. *)
Fixpoint count_blanks (s : string) : nat :=
  match s with
  | String c t => (if Ascii.eqb c " " then 1 else 0) + count_blanks t
  | EmptyString => 0
  end.

#[export] Instance embedder : Embedder :=
  {| get_embedding := fun s => [float_of_nat (String.length s); float_of_nat (count_blanks s)] |}.

(** A judge that ignores its instructions. *)
#[export] Instance judge : Judge :=
  {| chat_completion := fun _ _ => " mostly correct "%string |}.

Definition digit_of (c : ascii) : option nat :=
  let n := nat_of_ascii c in
  if ((48 <=? n) && (n <=? 57))%nat then Some (n - 48)%nat else None.

(** Reads a run of digits: its value, its length, and the rest. *)
Fixpoint read_digits (s : string) (acc : float) (count : nat) : float * nat * string :=
  match s with
  | String c t =>
      match digit_of c with
      | Some d => read_digits t (acc * 10 + float_of_nat d) (S count)
      | None => (acc, count, s)
      end
  | EmptyString => (acc, count, s)
  end.

Fixpoint pow10 (n : nat) : float :=
  match n with
  | O => 1
  | S m => pow10 m * 10
  end.

(** Plain decimal literals: sign, digits, optional fraction. *)
Definition decimal (s : string) : option float :=
  let signed :=
    match s with
    | String "-" t => (true, t)
    | String "+" t => (false, t)
    | _ => (false, s)
    end in
  let body := snd signed in
  let sign := fun x : float => if fst signed then - x else x in
  let '(ip, n1, rest) := read_digits body 0 0 in
  match rest with
  | EmptyString => if (n1 =? 0)%nat then None else Some (sign ip)
  | String "." t =>
      let '(fp, n2, rest2) := read_digits t 0 0 in
      match rest2 with
      | EmptyString =>
          if (n1 + n2 =? 0)%nat then None else Some (sign (ip + fp / pow10 n2))
      | _ => None
      end
  | _ => None
  end.

#[export] Instance parser : FloatParser := {| parse_float := decimal |}.

End Reference.

(* ================================================================== *)
(** * How CPython sorts a short list *)
(* ================================================================== *)

(** [list.sort] on a list of fewer than 64 elements, as the interpreter
    runs it ([count_run] and [binarysort] of its [listobject.c]): the run
    at the head of the list is counted (and reversed when it descends),
    then the other elements are inserted one by one at the place a binary
    search gives.  The order of the result depends on the comparisons
    only, also when they are inconsistent, as with a NaN key.  A longer
    list is cut into such runs, which are then merged; the merges are not
    followed here, and this model sorts a longer list as one run, which
    gives the same list whenever the keys can be compared. *)
Module CPython.

Section Forward.

Context {A : Type} (lt : A -> A -> bool).

(** How far the run goes on after [prev]: a descending run as long as the
    next element is below the one before, an ascending run as long as it
    is not. *)
Fixpoint run_tail (descending : bool) (prev : A) (l : list A) : nat :=
  match l with
  | [] => 0
  | x :: t =>
      if Bool.eqb (lt x prev) descending then S (run_tail descending x t) else 0
  end.

(** [count_run]: the length of the run at the head of the list, and
    whether it descends. *)
Definition count_run (l : list A) : nat * bool :=
  match l with
  | [] => (0, false)
  | [_] => (1, false)
  | x0 :: x1 :: t =>
      let descending := lt x1 x0 in
      (2 + run_tail descending x1 t, descending)
  end.

(** The binary search of [binarysort]: where [pivot] goes in the part
    [pre] already in place, between the positions [l] and [r]. *)
Fixpoint bisect (fuel : nat) (pre : list A) (pivot : A) (l r : nat) : nat :=
  match fuel with
  | O => l
  | S fuel' =>
      let p := l + (r - l) / 2 in
      match nth_error pre p with
      | Some y =>
          let l' := if lt pivot y then l else S p in
          let r' := if lt pivot y then p else r in
          if l' <? r' then bisect fuel' pre pivot l' r' else l'
      | None => l
      end
  end.

Definition insert_at (pre : list A) (pivot : A) : list A :=
  let l := bisect (List.length pre) pre pivot 0 (List.length pre) in
  firstn l pre ++ pivot :: skipn l pre.

(** [binarysort]: the elements of [rest] inserted into [pre] one by one. *)
Definition binarysort (pre rest : list A) : list A :=
  fold_left insert_at rest pre.

(** The ascending sort of one run. *)
Definition sort_run (l : list A) : list A :=
  match l with
  | [] | [_] => l
  | _ =>
      let n := fst (count_run l) in
      let run := firstn n l in
      binarysort (if snd (count_run l) then rev run else run) (skipn n l)
  end.

End Forward.

(** With [reverse=True] the list is reversed, sorted upwards and reversed
    again, which keeps elements of equal keys in their original order. *)
#[export] Instance list_sorter : ListSort :=
  {| sort_by_key_desc := fun A key l =>
       rev (sort_run (fun x y => (key x <? key y)%float) (rev l)) |}.

End CPython.

(* ================================================================== *)
(** * More code of the notebooks: extraction, sentences, similarity series *)
(* ================================================================== *)

(** PyMuPDF: the text of every page of the document at a path, in page
    order. *)
Class PdfReader : Type := {
  page_texts : string -> list string
}.

(** The extraction of the semantic chunking and chunk-size notebooks: a
    blank after every page, and the whole stripped. *)
Definition extract_text_from_pdf {reader : PdfReader} (pdf_path : string) : string :=
  let all_text :=
    fold_left (fun all_text text => (all_text ++ (text ++ " "))%string)
              (page_texts pdf_path) EmptyString in
  strip all_text.

(** A reader with one document of three pages, and no page elsewhere. *)
Definition toy_reader : PdfReader :=
  {| page_texts := fun path =>
       if String.eqb path "doc.pdf"
       then ["  First page. "; "Second page."; ""]%string
       else [] |}.

(** The scan of [s.split(sep)]: [cur] is the piece read so far, [skip] the
    number of characters of a separator just found that are still to be
    passed over.  Separators are found from left to right and do not
    overlap. *)
Fixpoint split_scan (sep s : string) (skip : nat) (cur : string) : list string :=
  match s with
  | EmptyString => [cur]
  | String c t =>
      match skip with
      | S skip' => split_scan sep t skip' cur
      | O =>
          if prefix sep s
          then cur :: split_scan sep t (String.length sep - 1) EmptyString
          else split_scan sep t 0 (cur ++ String c EmptyString)
      end
  end.

(** [s.split(sep)]: an empty separator raises [ValueError]. *)
Definition str_split (s sep : string) : result (list string) :=
  match sep with
  | EmptyString => Raise ValueError
  | _ => Ok (split_scan sep s 0 EmptyString)
  end.

Section SemanticChunkingCells.

Context {stats : Np.Stats} {embedder : Embedder}.

(** [[get_embedding(sentence) for sentence in sentences]], and
    [create_embeddings(text_chunks)] of the same notebook. *)
Definition sentence_embeddings (sentences : list string) : list (list float) :=
  map get_embedding sentences.

(** [[cosine_similarity(embeddings[i], embeddings[i + 1])
      for i in range(len(embeddings) - 1)]] *)
Definition consecutive_similarities (embeddings : list (list float))
    : result (list float) :=
  mapM (fun i =>
          a <- getitem embeddings i ;;
          b <- getitem embeddings (i + 1)%Z ;;
          cosine_similarity a b)
       (range2 0 (Z.of_nat (List.length embeddings) - 1)).

(** The cells of the semantic chunking notebook from the split into
    sentences to the chunks. *)
Definition semantic_chunks (extracted_text : string) : result (list string) :=
  sentences <- str_split extracted_text ". " ;;
  let embeddings := sentence_embeddings sentences in
  similarities <- consecutive_similarities embeddings ;;
  breakpoints <- compute_breakpoints similarities "percentile" 90%float ;;
  Ok (split_into_chunks sentences (map Z.of_nat breakpoints)).

End SemanticChunkingCells.

(* ================================================================== *)
(** * Vocabulary of the specification *)
(* ================================================================== *)

(** [ceil(a / b)] for a positive [b]. *)
Definition ceil_div (a b : Z) : Z := ((a + b - 1) / b)%Z.

(** The integers from [lo] to [hi], both included; empty when [hi < lo]. *)
Definition interval (lo hi : Z) : list Z :=
  map (fun d => (lo + Z.of_nat d)%Z) (seq 0 (Z.to_nat (hi - lo + 1))).

(** The units of [l] at the positions [lo .. hi], both included. *)
Definition units_between {A : Type} (l : list A) (lo hi : Z) : list A :=
  firstn (Z.to_nat (hi - lo + 1)) (skipn (Z.to_nat lo) l).

(** Strictly increasing positions of a sequence of [n] elements. *)
Definition increasing_positions (n : nat) (bps : list Z) : Prop :=
  StronglySorted Z.lt bps /\ Forall (fun b => (0 <= b < Z.of_nat n)%Z) bps.

(** A breakpoint set for [n] units, as the data model has it: strictly
    increasing positions of the [n - 1] similarities of adjacent units
    (position [i] is the boundary between unit [i] and unit [i + 1]). *)
Definition breakpoint_set (n : nat) (bps : list Z) : Prop :=
  increasing_positions (n - 1) bps.

(** The boundary before chunk [k]: [-1] before the first chunk. *)
Definition previous_boundary (bps : list Z) (k : nat) : Z :=
  match k with
  | O => (-1)%Z
  | S j => nth j bps (-1)%Z
  end.

(** The positions of a series whose value is below a cutoff. *)
Definition below (cutoff : float) (similarities : list float) : list nat :=
  map fst (filter (fun p => (snd p <? cutoff)%float) (enumerate similarities)).

(** A float the division by which cannot give a finite number: a zero
    or a NaN. *)
Definition degenerate (x : spec_float) : Prop :=
  match x with
  | S754_zero _ | S754_nan => True
  | _ => False
  end.

(** The similarity at position [i] is not below the one at position [j],
    in the order NumPy sorts floats by: it is the higher or the equal
    number, or it is a NaN, which that order puts above every number. *)
Definition not_below (similarities : list float) (i j : nat) : Prop :=
  Np.lt (nth i similarities nan) (nth j similarities nan) = false.

(** The groups of units the chunking loop takes, one per breakpoint and
    then the rest, starting at unit [start]. *)
Fixpoint unit_groups (sentences : list string) (start : Z) (bps : list Z)
    : list (list string) :=
  match bps with
  | [] => [slice sentences (Some start) None]
  | bp :: rest =>
      slice sentences (Some start) (Some (bp + 1)%Z)
        :: unit_groups sentences (bp + 1) rest
  end.

(** The text of the chunks made of these groups: the units of a group are
    joined by ". ", and every group but the last is closed by ".". *)
Definition render (groups : list (list string)) : list string :=
  map (fun g => (join ". " g ++ ".")%string) (removelast groups)
  ++ [join ". " (last groups [])].

(** The value of the cosine similarity on vectors of equal dimension. *)
Definition cosine_value (q e : list float) : float :=
  (Np.dot_sum q e / (Np.norm q * Np.norm e))%float.

(** The position of the best match: what the context-enriched search
    computes from the query and the embeddings before it looks at the
    chunks and the context size. *)
Definition best_match {embedder : Embedder} {list_sorter : ListSort}
    (query : string) (embeddings : list (list float)) : result nat :=
  similarity_scores <-
    mapM (fun p =>
            similarity_score <- cosine_similarity (get_embedding query) (snd p) ;;
            Ok (fst p, similarity_score))
         (enumerate embeddings) ;;
  best <- getitem (sort_by_key_desc snd similarity_scores) 0 ;;
  Ok (fst best).

(** The chunks around position [top], [context_size] on each side. *)
Definition context_window (text_chunks : list string) (top : nat)
    (context_size : Z) : result (list string) :=
  mapM (getitem text_chunks)
       (range2 (Z.max 0 (Z.of_nat top - context_size))
               (Z.min (Z.of_nat (List.length text_chunks))
                      (Z.of_nat top + context_size + 1))).


(** How many leading elements [l[-k:]] drops. *)
Definition dropped (len : nat) (k : Z) : nat :=
  if (1 <=? k)%Z then (len - Z.to_nat k)%nat else Nat.min (Z.to_nat (- k)) len.

(** The ranking the two plain retrievers return, as positions. *)
Definition ranking {sorter : Np.Argsort} (similarities : list float) (k : Z)
    : list nat :=
  rev (skipn (dropped (List.length similarities) k) (Np.argsort similarities)).

(* ================================================================== *)
(** * Basic facts about the Python runtime model *)
(* ================================================================== *)

Lemma ceil_div_spec (a b : Z) :
  (0 < b)%Z -> (0 <= a)%Z ->
  (a <= ceil_div a b * b /\ (ceil_div a b - 1) * b < a)%Z.
Proof.
  intros Hb Ha. unfold ceil_div.
  pose proof (Z.div_mod (a + b - 1) b ltac:(lia)) as Hdm.
  pose proof (Z.mod_pos_bound (a + b - 1) b Hb) as Hm.
  nia.
Qed.

Lemma range_len_nonneg (start stop step : Z) :
  (0 <= range_len start stop step)%Z.
Proof.
  unfold range_len.
  destruct (0 <? step)%Z eqn:Hs.
  - apply Z.ltb_lt in Hs. destruct (start <? stop)%Z eqn:Hc; [|lia].
    apply Z.ltb_lt in Hc.
    pose proof (Z.div_pos (stop - start - 1) step ltac:(lia) Hs). lia.
  - apply Z.ltb_ge in Hs. destruct (stop <? start)%Z eqn:Hc; [|lia].
    apply Z.ltb_lt in Hc.
    destruct (Z.eq_dec step 0) as [->|Hne].
    + simpl. rewrite Z.div_0_r. lia.
    + pose proof (Z.div_pos (start - stop - 1) (- step) ltac:(lia) ltac:(lia)). lia.
Qed.

Lemma range_len_forward (stop step : Z) :
  (0 < step)%Z -> (0 <= stop)%Z -> range_len 0 stop step = ceil_div stop step.
Proof.
  intros Hs Hl. unfold range_len, ceil_div.
  replace (0 <? step)%Z with true by (symmetry; apply Z.ltb_lt; lia).
  destruct (0 <? stop)%Z eqn:Hc.
  - apply Z.ltb_lt in Hc.
    replace (stop + step - 1)%Z with (stop - 0 - 1 + 1 * step)%Z by lia.
    rewrite Z.div_add by lia. reflexivity.
  - apply Z.ltb_ge in Hc. assert (stop = 0)%Z as -> by lia.
    symmetry. apply Z.div_small. lia.
Qed.

Lemma range_len_backward (start stop step : Z) :
  (step < 0)%Z -> (start <= stop)%Z -> range_len start stop step = 0%Z.
Proof.
  intros Hs Hl. unfold range_len.
  replace (0 <? step)%Z with false by (symmetry; apply Z.ltb_ge; lia).
  replace (stop <? start)%Z with false by (symmetry; apply Z.ltb_ge; lia).
  reflexivity.
Qed.

Lemma range_list_length (start stop step : Z) :
  Z.of_nat (List.length (range_list start stop step)) = range_len start stop step.
Proof.
  unfold range_list. rewrite length_map, length_seq.
  apply Z2Nat.id, range_len_nonneg.
Qed.

Lemma range_list_nth (start stop step : Z) (k : nat) (i : Z) :
  nth_error (range_list start stop step) k = Some i ->
  i = (start + Z.of_nat k * step)%Z /\ (Z.of_nat k < range_len start stop step)%Z.
Proof.
  unfold range_list. intros H.
  pose proof (nth_error_Some (map (fun j => (start + Z.of_nat j * step)%Z)
                (seq 0 (Z.to_nat (range_len start stop step)))) k) as Hlen.
  rewrite H in Hlen. rewrite length_map, length_seq in Hlen.
  assert (k < Z.to_nat (range_len start stop step))%nat as Hk
    by (apply Hlen; discriminate).
  rewrite nth_error_map, nth_error_seq in H.
  destruct (k <? Z.to_nat (range_len start stop step))%nat eqn:E.
  - simpl in H. inversion H. split; [reflexivity | lia].
  - apply Nat.ltb_ge in E. lia.
Qed.

Lemma range2_interval (start stop : Z) :
  range2 start stop = interval start (stop - 1).
Proof.
  unfold range2, range_list, interval, range_len. simpl (0 <? 1)%Z.
  destruct (start <? stop)%Z eqn:Hc.
  - rewrite Z.div_1_r.
    replace (stop - start - 1 + 1)%Z with (stop - 1 - start + 1)%Z by lia.
    apply map_ext. intros. lia.
  - apply Z.ltb_ge in Hc.
    replace (Z.to_nat (stop - 1 - start + 1)) with 0%nat by lia. reflexivity.
Qed.

Lemma substring_length (s : string) (n m : nat) :
  String.length (substring n m s) = Nat.min m (String.length s - n).
Proof.
  revert n m. induction s as [|c s IH]; intros n m.
  - destruct n, m; reflexivity.
  - destruct n as [|n].
    + destruct m as [|m]; [reflexivity|]. simpl. rewrite IH.
      rewrite Nat.sub_0_r. reflexivity.
    + simpl. apply IH.
Qed.

Lemma mapM_total {A B : Type} (f : A -> result B) (g : A -> B) (l : list A) :
  (forall x, In x l -> f x = Ok (g x)) -> mapM f l = Ok (map g l).
Proof.
  induction l as [|x t IH]; intros H; simpl; [reflexivity|].
  rewrite (H x (or_introl eq_refl)), IH; [reflexivity|].
  intros y Hy. apply H. right. exact Hy.
Qed.

Lemma getitem_in_range {A : Type} (l : list A) (i : Z) (d : A) :
  (0 <= i < Z.of_nat (List.length l))%Z ->
  getitem l i = Ok (nth (Z.to_nat i) l d).
Proof.
  intros Hi. unfold getitem.
  replace (i <? 0)%Z with false by (symmetry; apply Z.ltb_ge; lia).
  replace ((0 <=? i)%Z && (i <? Z.of_nat (List.length l))%Z) with true
    by (symmetry; apply andb_true_iff; split; [apply Z.leb_le | apply Z.ltb_lt]; lia).
  rewrite (nth_error_nth' l d) by lia. reflexivity.
Qed.

Lemma interval_bounds (lo hi i : Z) :
  In i (interval lo hi) <-> (lo <= i <= hi)%Z.
Proof.
  unfold interval. rewrite in_map_iff. split.
  - intros [d [<- Hd]]. apply in_seq in Hd. lia.
  - intros H. exists (Z.to_nat (i - lo)). split; [lia|].
    apply in_seq. lia.
Qed.



(* ================================================================== *)
(** * Fixed-window chunking *)
(* ================================================================== *)

Lemma chunk_text_forward (text : string) (n overlap : Z) :
  (overlap < n)%Z ->
  chunk_text text n overlap =
    Ok (map (fun i => str_slice text i (i + n))
            (range_list 0 (Z.of_nat (String.length text)) (n - overlap))).
Proof.
  intros H. unfold chunk_text, range.
  replace (n - overlap =? 0)%Z with false by (symmetry; apply Z.eqb_neq; lia).
  reflexivity.
Qed.

Lemma str_slice_window (text : string) (i n : Z) :
  (0 <= i < Z.of_nat (String.length text))%Z -> (0 < n)%Z ->
  str_slice text i (i + n) =
    substring (Z.to_nat i)
      (Z.to_nat (Z.min (i + n) (Z.of_nat (String.length text)) - i)) text.
Proof.
  intros Hi Hn. unfold str_slice, adjust_index.
  replace (i <? 0)%Z with false by (symmetry; apply Z.ltb_ge; lia).
  replace (i + n <? 0)%Z with false by (symmetry; apply Z.ltb_ge; lia).
  replace (Z.min i (Z.of_nat (String.length text))) with i by lia.
  reflexivity.
Qed.

(** C4.  With [0 <= overlap < n] the chunker returns
    [ceil(len(text) / (n - overlap))] chunks; chunk [k] starts at offset
    [k * (n - overlap)] inside the text, holds the characters of the text
    from there on, and is [n] characters long unless the text ends
    first: the last, shorter window is kept. *)
Theorem chunk_text_windows (text : string) (n overlap : Z) :
  (0 <= overlap < n)%Z ->
  exists chunks : list string,
    chunk_text text n overlap = Ok chunks /\
    Z.of_nat (List.length chunks)
      = ceil_div (Z.of_nat (String.length text)) (n - overlap) /\
    forall (k : nat) (chunk : string),
      nth_error chunks k = Some chunk ->
      let start := (Z.of_nat k * (n - overlap))%Z in
      (start < Z.of_nat (String.length text))%Z /\
      Z.of_nat (String.length chunk)
        = Z.min n (Z.of_nat (String.length text) - start) /\
      forall j : nat,
        (j < String.length chunk)%nat ->
        String.get j chunk = String.get (Z.to_nat start + j) text.
Proof.
  intros [Ho Hn].
  set (len := Z.of_nat (String.length text)).
  set (stride := (n - overlap)%Z).
  assert (0 < stride)%Z as Hs by (unfold stride; lia).
  eexists. split; [apply chunk_text_forward; lia|].
  fold len stride. split.
  - rewrite length_map, range_list_length.
    apply range_len_forward; unfold len; lia.
  - intros k chunk Hk. cbv zeta.
    rewrite nth_error_map in Hk.
    destruct (nth_error (range_list 0 len stride) k) as [i|] eqn:Hi;
      [|discriminate].
    simpl in Hk. injection Hk as <-.
    apply range_list_nth in Hi. destruct Hi as [-> Hlt].
    rewrite range_len_forward in Hlt by (unfold len; lia).
    destruct (@ceil_div_spec len stride Hs ltac:(unfold len; lia)) as [_ Hc].
    simpl (0 + _)%Z.
    assert (0 <= Z.of_nat k * stride < len)%Z as Hstart by nia.
    split; [lia|].
    rewrite str_slice_window by (fold len; lia). fold len.
    split.
    + rewrite substring_length. fold len. lia.
    + intros j Hj. rewrite substring_length in Hj.
      rewrite substring_correct1 by lia. f_equal. lia.
Qed.

(** The theorem on a text of ten characters, windows of 4 overlapping by 1. *)
Lemma chunk_text_windows_witness :
  (0 <= 1 < 4)%Z /\
  exists chunks : list string,
    chunk_text "abcdefghij" 4 1 = Ok chunks /\
    Z.of_nat (List.length chunks) = ceil_div (Z.of_nat (String.length "abcdefghij")) (4 - 1) /\
    forall (k : nat) (chunk : string),
      nth_error chunks k = Some chunk ->
      let start := (Z.of_nat k * (4 - 1))%Z in
      (start < Z.of_nat (String.length "abcdefghij"))%Z /\
      Z.of_nat (String.length chunk)
        = Z.min 4 (Z.of_nat (String.length "abcdefghij") - start) /\
      forall j : nat,
        (j < String.length chunk)%nat ->
        String.get j chunk = String.get (Z.to_nat start + j) "abcdefghij".
Proof.
  split; [lia | apply (chunk_text_windows "abcdefghij" 4 1); lia].
Defined.

Example chunk_text_example :
  chunk_text "abcdefghij" 4 1 = Ok ["abcd"; "defg"; "ghij"; "j"]%string.
Proof. reflexivity. Qed.

(** C5, as the specification states it, fails: with an overlap larger
    than the window the chunker raises nothing and returns no chunk. *)
Lemma chunk_text_overlap_above_window_returns :
  (5 >= 4)%Z /\ chunk_text "abcdefghij" 4 5 = Ok [].
Proof. split; [lia | reflexivity]. Qed.

(** C5, amended.  An overlap equal to the window makes the stride zero
    and [range] raises [ValueError]; an overlap larger than the window
    makes the stride negative and the chunker returns the empty list,
    without an error; an overlap smaller than the window never raises. *)
Theorem chunk_text_overlap_cases (text : string) (n overlap : Z) :
  (overlap = n -> chunk_text text n overlap = Raise ValueError) /\
  ((n < overlap)%Z -> chunk_text text n overlap = Ok []) /\
  ((overlap < n)%Z -> exists chunks, chunk_text text n overlap = Ok chunks).
Proof.
  split; [|split].
  - intros ->. unfold chunk_text, range. rewrite Z.sub_diag. reflexivity.
  - intros H. unfold chunk_text, range.
    replace (n - overlap =? 0)%Z with false by (symmetry; apply Z.eqb_neq; lia).
    unfold bind, range_list.
    rewrite range_len_backward by lia. reflexivity.
  - intros H. eexists. apply chunk_text_forward. exact H.
Qed.

(* ================================================================== *)
(** * Breakpoint detection *)
(* ================================================================== *)

Section Breakpoints.

Context {stats : Np.Stats}.

Lemma filter_positions {A : Type} (f : nat * A -> bool) (l : list A) (a : nat) :
  let r := map fst (filter f (combine (seq a (List.length l)) l)) in
  StronglySorted Nat.lt r /\
  Forall (fun i => (a <= i < a + List.length l)%nat) r.
Proof.
  revert a. induction l as [|x t IH]; intros a; simpl.
  - split; constructor.
  - destruct (IH (S a)) as [Hs Hr]. simpl in Hs, Hr.
    assert (Forall (fun i => (a < i)%nat /\ (a <= i < a + S (List.length t))%nat)
              (map fst (filter f (combine (seq (S a) (List.length t)) t)))) as Hall
      by (eapply Forall_impl; [|exact Hr]; simpl; intros; lia).
    destruct (f (a, x)); simpl.
    + split.
      * constructor; [exact Hs|]. eapply Forall_impl; [|exact Hall]. simpl. tauto.
      * constructor; [lia|]. eapply Forall_impl; [|exact Hall]. simpl. tauto.
    + split; [exact Hs|]. eapply Forall_impl; [|exact Hall]. simpl. tauto.
Qed.

Lemma in_enumerate {A : Type} (l : list A) (i : nat) (x : A) :
  In (i, x) (enumerate l) <-> nth_error l i = Some x.
Proof.
  unfold enumerate.
  assert (forall a, In (i, x) (combine (seq a (List.length l)) l)
                    <-> (a <= i)%nat /\ nth_error l (i - a) = Some x) as H.
  { induction l as [|y t IH]; intros a; simpl.
    - split; [tauto|]. intros [_ H]. destruct (i - a)%nat; discriminate.
    - rewrite IH. split.
      + intros [H|[H1 H2]].
        * injection H as <- <-. rewrite Nat.sub_diag. split; [lia|reflexivity].
        * split; [lia|]. replace (i - a)%nat with (S (i - S a)) by lia. exact H2.
      + intros [H1 H2]. destruct (Nat.eq_dec a i) as [<-|Hne].
        * rewrite Nat.sub_diag in H2. simpl in H2. injection H2 as ->. now left.
        * right. split; [lia|].
          replace (i - a)%nat with (S (i - S a)) in H2 by lia. exact H2. }
  rewrite H, Nat.sub_0_r. split; [tauto|]. intros; split; [lia|assumption].
Qed.

Lemma below_spec (cutoff : float) (similarities : list float) (i : nat) :
  In i (below cutoff similarities) <->
  exists s, nth_error similarities i = Some s /\ (s <? cutoff)%float = true.
Proof.
  unfold below. rewrite in_map_iff. split.
  - intros [[j s] [Hj Hin]]. simpl in Hj. subst j.
    apply filter_In in Hin. destruct Hin as [Hin Hlt].
    exists s. split; [apply in_enumerate; exact Hin | exact Hlt].
  - intros [s [Hn Hlt]]. exists (i, s). split; [reflexivity|].
    apply filter_In. split; [apply in_enumerate; exact Hn | exact Hlt].
Qed.

(** C7.  With the interquartile method the cutoff is
    [Q1 - 1.5 * (Q3 - Q1)], where [Q1] and [Q3] are what [np.percentile]
    returns at 25 and 75; the result lists exactly the positions whose
    similarity is below the cutoff; and the threshold argument has no
    influence on the result (also when the percentile call raises). *)
Theorem interquartile_breakpoints (similarities : list float) (threshold : float) :
  compute_breakpoints similarities "interquartile" threshold =
    (q1 <- Np.percentile similarities 25%float ;;
     q3 <- Np.percentile similarities 75%float ;;
     Ok (below (q1 - 1.5 * (q3 - q1))%float similarities)) /\
  (forall q1 q3 : float,
     Np.percentile similarities 25%float = Ok q1 ->
     Np.percentile similarities 75%float = Ok q3 ->
     exists bps : list nat,
       compute_breakpoints similarities "interquartile" threshold = Ok bps /\
       forall i : nat,
         In i bps <->
         exists s, nth_error similarities i = Some s /\
                   (s <? q1 - 1.5 * (q3 - q1))%float = true) /\
  (forall threshold' : float,
     compute_breakpoints similarities "interquartile" threshold' =
     compute_breakpoints similarities "interquartile" threshold).
Proof.
  assert (compute_breakpoints similarities "interquartile" threshold =
    (q1 <- Np.percentile similarities 25%float ;;
     q3 <- Np.percentile similarities 75%float ;;
     Ok (below (q1 - 1.5 * (q3 - q1))%float similarities))) as Heq.
  { unfold compute_breakpoints. simpl String.eqb. cbv iota.
    unfold bind.
    destruct (Np.percentile similarities 25%float); [|reflexivity].
    destruct (Np.percentile similarities 75%float); reflexivity. }
  split; [exact Heq|]. split.
  - intros q1 q3 H1 H3. rewrite Heq, H1, H3. simpl.
    eexists. split; [reflexivity|]. intros i. apply below_spec.
  - intros threshold'. reflexivity.
Qed.

(** C8.  Whatever the method and the threshold, a returned breakpoint
    list is strictly increasing and each of its elements is a position of
    the similarity series. *)
Theorem breakpoints_increasing_in_range
    (similarities : list float) (method : string) (threshold : float)
    (bps : list nat) :
  compute_breakpoints similarities method threshold = Ok bps ->
  StronglySorted Nat.lt bps /\
  Forall (fun i => (0 <= i <= List.length similarities - 1)%nat
                   /\ (i < List.length similarities)%nat) bps.
Proof.
  unfold compute_breakpoints. intros H.
  match type of H with
  | bind ?m _ = _ => destruct m as [cutoff|e]; [|discriminate]
  end.
  simpl in H. injection H as <-.
  destruct (filter_positions (fun p => (snd p <? cutoff)%float) similarities 0)
    as [Hs Hr].
  split; [exact Hs|].
  eapply Forall_impl; [|exact Hr]. simpl. intros; lia.
Qed.

(** The method names the detector recognises always lead to a result
    when the percentile calls return; any other name raises. *)
Lemma compute_breakpoints_returns (similarities : list float) (method : string)
    (threshold : float) :
  (method = "standard_deviation"%string ->
   exists bps, compute_breakpoints similarities method threshold = Ok bps) /\
  (method = "percentile"%string ->
   forall v, Np.percentile similarities threshold = Ok v ->
   compute_breakpoints similarities method threshold = Ok (below v similarities)) /\
  (method <> "percentile"%string -> method <> "standard_deviation"%string ->
   method <> "interquartile"%string ->
   compute_breakpoints similarities method threshold = Raise ValueError).
Proof.
  split; [|split].
  - intros ->. eexists. reflexivity.
  - intros -> v Hv. unfold compute_breakpoints. simpl String.eqb. cbv iota.
    rewrite Hv. reflexivity.
  - intros H1 H2 H3. unfold compute_breakpoints.
    apply String.eqb_neq in H1, H2, H3. rewrite H1, H2, H3. reflexivity.
Qed.

End Breakpoints.

(** The theorem on a series of five similarities, with the reference
    statistics. *)
Lemma breakpoints_increasing_in_range_witness :
  compute_breakpoints (stats := Reference.stats)
    [0.75; 0.125; 0.5; 0.875; 0.25]%float "standard_deviation" 1%float = Ok [1%nat] /\
  StronglySorted Nat.lt [1%nat] /\
  Forall (fun i => (0 <= i <= 5 - 1)%nat /\ (i < 5)%nat) [1%nat].
Proof.
  split; [vm_compute; reflexivity|].
  apply (breakpoints_increasing_in_range (stats := Reference.stats)
           [0.75; 0.125; 0.5; 0.875; 0.25]%float "standard_deviation" 1%float).
  vm_compute. reflexivity.
Defined.

Example interquartile_example :
  compute_breakpoints (stats := Reference.stats)
    [0.75; 0.0625; 0.75; 0.875; 0.75; 0.875; 0.75]%float "interquartile" 90%float
  = Ok [1%nat].
Proof. vm_compute. reflexivity. Qed.

(* ================================================================== *)
(** * Facts about binary64 floats, from the specification of the
      primitive operations *)
(* ================================================================== *)

Module FloatFacts.

Local Open Scope float_scope.

Ltac compare_cases :=
  repeat match goal with
  | H : context [Z.compare ?a ?b] |- _ => destruct (Z.compare_spec a b); subst
  | |- context [Z.compare ?a ?b] => destruct (Z.compare_spec a b); subst
  | H : context [Pos.compare ?a ?b] |- _ => destruct (Pos.compare_spec a b); subst
  | |- context [Pos.compare ?a ?b] => destruct (Pos.compare_spec a b); subst
  end;
  simpl in *; try discriminate; try reflexivity; try lia.

Ltac unfold_compare :=
  unfold SFltb, SFeqb, SFcompare;
  change PosDef.Pos.compare_cont with Pos.compare_cont;
  change (Pos.compare_cont Eq) with Pos.compare.

Lemma SFltb_irrefl (x : spec_float) : SFltb x x = false.
Proof.
  destruct x as [s|s| |s m e]; try destruct s; unfold_compare; compare_cases.
Qed.

Lemma SFltb_trans (x y z : spec_float) :
  SFltb x y = true -> SFltb y z = true -> SFltb x z = true.
Proof.
  destruct x as [sx|sx| |sx mx ex]; destruct y as [sy|sy| |sy my ey];
    destruct z as [sz|sz| |sz mz ez];
    try destruct sx; try destruct sy; try destruct sz;
    unfold_compare; simpl; try discriminate; try reflexivity;
    intros H1 H2; compare_cases.
Qed.

Lemma SFltb_negtrans (x y z : spec_float) :
  x <> S754_nan -> y <> S754_nan -> z <> S754_nan ->
  SFltb x y = false -> SFltb y z = false -> SFltb x z = false.
Proof.
  destruct x as [sx|sx| |sx mx ex]; destruct y as [sy|sy| |sy my ey];
    destruct z as [sz|sz| |sz mz ez];
    try destruct sx; try destruct sy; try destruct sz;
    unfold_compare; simpl; try congruence;
    intros _ _ _ H1 H2; compare_cases.
Qed.

Lemma is_nan_Prim2SF (f : float) : is_nan f = true <-> Prim2SF f = S754_nan.
Proof.
  unfold is_nan. rewrite eqb_spec.
  destruct (Prim2SF f) as [s|s| |s m e]; try destruct s; unfold_compare;
    rewrite ?Z.compare_refl, ?Pos.compare_refl; simpl; split; congruence.
Qed.

Lemma not_nan_Prim2SF (f : float) : is_nan f = false <-> Prim2SF f <> S754_nan.
Proof.
  rewrite <- is_nan_Prim2SF. destruct (is_nan f); split; congruence.
Qed.

Lemma ltb_nan_l (a b : float) : is_nan a = true -> (a <? b) = false.
Proof.
  intros H. apply is_nan_Prim2SF in H. rewrite ltb_spec, H. reflexivity.
Qed.

Lemma ltb_nan_r (a b : float) : is_nan b = true -> (a <? b) = false.
Proof.
  intros H. apply is_nan_Prim2SF in H. rewrite ltb_spec, H.
  destruct (Prim2SF a); reflexivity.
Qed.

Lemma ltb_irrefl (a : float) : (a <? a) = false.
Proof. rewrite ltb_spec. apply SFltb_irrefl. Qed.

Lemma ltb_trans (a b c : float) :
  (a <? b) = true -> (b <? c) = true -> (a <? c) = true.
Proof. rewrite !ltb_spec. apply SFltb_trans. Qed.

(** Among numbers, "not less than" is transitive. *)
Lemma ltb_negtrans (a b c : float) :
  is_nan a = false -> is_nan b = false -> is_nan c = false ->
  (a <? b) = false -> (b <? c) = false -> (a <? c) = false.
Proof.
  rewrite !not_nan_Prim2SF, !ltb_spec. apply SFltb_negtrans.
Qed.

(** NumPy's sort order is a strict weak order on all floats. *)
Lemma np_lt_irrefl (a : float) : Np.lt a a = false.
Proof.
  unfold Np.lt. rewrite ltb_irrefl. destruct (is_nan a); reflexivity.
Qed.

Lemma np_lt_trans (a b c : float) :
  Np.lt a b = true -> Np.lt b c = true -> Np.lt a c = true.
Proof.
  unfold Np.lt.
  destruct (is_nan a) eqn:Ha; [rewrite !(ltb_nan_l a) by exact Ha|];
    destruct (is_nan b) eqn:Hb;
    [rewrite ?(ltb_nan_l b), ?(ltb_nan_r _ b) by exact Hb| |
     rewrite ?(ltb_nan_l b), ?(ltb_nan_r _ b) by exact Hb|];
    destruct (is_nan c) eqn:Hc;
    rewrite ?(ltb_nan_r _ c) by exact Hc; simpl;
    rewrite ?orb_false_r; try discriminate; try reflexivity.
  apply ltb_trans.
Qed.

Lemma np_lt_negtrans (a b c : float) :
  Np.lt a b = false -> Np.lt b c = false -> Np.lt a c = false.
Proof.
  unfold Np.lt.
  destruct (is_nan a) eqn:Ha; [rewrite !(ltb_nan_l a) by exact Ha|];
    destruct (is_nan b) eqn:Hb;
    [rewrite ?(ltb_nan_l b), ?(ltb_nan_r _ b) by exact Hb| |
     rewrite ?(ltb_nan_l b), ?(ltb_nan_r _ b) by exact Hb|];
    destruct (is_nan c) eqn:Hc;
    rewrite ?(ltb_nan_r _ c) by exact Hc; simpl;
    rewrite ?orb_false_r; try discriminate; try reflexivity.
  apply ltb_negtrans; assumption.
Qed.

Lemma is_zero_Prim2SF (f : float) :
  is_zero f = true -> exists s, Prim2SF f = S754_zero s.
Proof.
  unfold is_zero. rewrite eqb_spec.
  change (Prim2SF zero) with (S754_zero false).
  destruct (Prim2SF f) as [s|s| |s m e]; try (destruct s); simpl; try discriminate;
    intros _; eexists; reflexivity.
Qed.

Lemma mul_degenerate_l (a b : float) :
  degenerate (Prim2SF a) -> degenerate (Prim2SF (a * b)).
Proof.
  rewrite mul_spec. unfold SF64mul.
  destruct (Prim2SF a); simpl; try tauto; intros _;
    destruct (Prim2SF b); simpl; exact I.
Qed.

Lemma mul_degenerate_r (a b : float) :
  degenerate (Prim2SF b) -> degenerate (Prim2SF (a * b)).
Proof.
  rewrite mul_spec. unfold SF64mul.
  destruct (Prim2SF b); simpl; try tauto; intros _;
    destruct (Prim2SF a); simpl; exact I.
Qed.

(** Dividing by a zero or by a NaN gives a NaN or an infinity. *)
Lemma div_degenerate (x d : float) :
  degenerate (Prim2SF d) ->
  is_nan (x / d) = true \/ is_infinity (x / d) = true.
Proof.
  intros Hd. unfold is_nan, is_infinity.
  rewrite !eqb_spec, abs_spec, div_spec. unfold SF64div.
  change (Prim2SF infinity) with (S754_infinity false).
  destruct (Prim2SF d); simpl in Hd; try tauto;
    destruct (Prim2SF x); simpl; auto.
Qed.

End FloatFacts.

(* ================================================================== *)
(** * Cosine similarity *)
(* ================================================================== *)

Lemma cosine_similarity_defined (vec1 vec2 : list float) :
  List.length vec1 = List.length vec2 ->
  cosine_similarity vec1 vec2
  = Ok (Np.dot_sum vec1 vec2 / (Np.norm vec1 * Np.norm vec2))%float.
Proof.
  intros H. unfold cosine_similarity, Np.dot.
  rewrite H, Nat.eqb_refl. reflexivity.
Qed.

(** C3, as the specification states it, fails: a vector of zero norm
    raises nothing, the quotient 0/0 is returned as a NaN. *)
Lemma cosine_similarity_zero_vector_returns_nan :
  Np.norm [0; 0]%float = 0%float /\
  cosine_similarity [0; 0]%float [3; 4]%float = Ok nan.
Proof. split; reflexivity. Qed.

(** C3, amended.  On vectors of equal dimension the function returns
    [dot(a, b) / (norm(a) * norm(b))], computed in binary64, and never
    raises; when one of the norms is zero the value returned is a NaN
    or an infinity. *)
Theorem cosine_similarity_formula (vec1 vec2 : list float) :
  List.length vec1 = List.length vec2 ->
  cosine_similarity vec1 vec2
    = Ok (Np.dot_sum vec1 vec2 / (Np.norm vec1 * Np.norm vec2))%float /\
  (is_zero (Np.norm vec1) = true \/ is_zero (Np.norm vec2) = true ->
   exists x : float,
     cosine_similarity vec1 vec2 = Ok x /\
     (is_nan x = true \/ is_infinity x = true)).
Proof.
  intros H. split; [apply cosine_similarity_defined; exact H|].
  intros Hz. eexists. split; [apply cosine_similarity_defined; exact H|].
  apply FloatFacts.div_degenerate.
  destruct Hz as [Hz|Hz]; apply FloatFacts.is_zero_Prim2SF in Hz;
    destruct Hz as [s Hs].
  - apply FloatFacts.mul_degenerate_l. rewrite Hs. exact I.
  - apply FloatFacts.mul_degenerate_r. rewrite Hs. exact I.
Qed.

(** The theorem on a zero vector: the value returned is a NaN. *)
Lemma cosine_similarity_formula_witness :
  List.length [0; 0]%float = List.length [3; 4]%float /\
  exists x : float,
    cosine_similarity [0; 0]%float [3; 4]%float = Ok x /\
    (is_nan x = true \/ is_infinity x = true).
Proof.
  split; [reflexivity|].
  apply (cosine_similarity_formula [0; 0]%float [3; 4]%float eq_refl).
  left. reflexivity.
Defined.

Example cosine_similarity_examples :
  cosine_similarity [3; 4]%float [3; 4]%float = Ok 1%float /\
  cosine_similarity [1; 0]%float [0; 1]%float = Ok 0%float /\
  cosine_similarity [1; 0]%float [1; 0; 0]%float = Raise ValueError.
Proof. repeat split; reflexivity. Qed.

(* ================================================================== *)
(** * The evaluator *)
(* ================================================================== *)

Section Evaluator.

Context {judge : Judge} {parser : FloatParser}.

(** What one [try: float(reply.strip()) / except ValueError] block does. *)
Lemma parse_or_default (reply warning : string) (out : list string) :
  IO.try_except_ValueError
    (py_float (strip reply))
    (_ <-- IO.print warning ;;; IO.ret 0%float) out
  = match parse_float (strip reply) with
    | Some x => (Ok x, out)
    | None => (Ok 0%float, out ++ [warning])
    end.
Proof.
  unfold IO.try_except_ValueError, py_float.
  destruct (parse_float (strip reply)); reflexivity.
Qed.

(** C9.  The evaluator always returns a pair of scores, whatever the
    judge replies.  A reply that does not parse as a float gives the
    score 0.0 for its criterion and prints the warning of that
    criterion; a reply that parses gives the parsed value. *)
Theorem evaluate_response_soft_fail
    (question response true_answer : string) (out : list string) :
  let faithfulness_reply :=
    chat_completion evaluator_system_prompt
      (faithfulness_prompt_format question response true_answer
         SCORE_FULL SCORE_PARTIAL SCORE_NONE) in
  let relevancy_reply :=
    chat_completion evaluator_system_prompt
      (relevancy_prompt_format question response
         SCORE_FULL SCORE_PARTIAL SCORE_NONE) in
  exists (faithfulness relevancy : float) (out' : list string),
    evaluate_response question response true_answer out
      = (Ok (faithfulness, relevancy), out') /\
    (parse_float (strip faithfulness_reply) = None ->
       faithfulness = 0%float /\ In faithfulness_warning out') /\
    (parse_float (strip relevancy_reply) = None ->
       relevancy = 0%float /\ In relevancy_warning out') /\
    (forall x, parse_float (strip faithfulness_reply) = Some x -> faithfulness = x) /\
    (forall x, parse_float (strip relevancy_reply) = Some x -> relevancy = x).
Proof.
  intros faithfulness_reply relevancy_reply.
  unfold evaluate_response. fold faithfulness_reply relevancy_reply.
  unfold IO.bind at 1. rewrite parse_or_default.
  destruct (parse_float (strip faithfulness_reply)) as [f|] eqn:Hf;
    unfold IO.bind at 1; rewrite parse_or_default;
    destruct (parse_float (strip relevancy_reply)) as [r|] eqn:Hr;
    unfold IO.ret; do 3 eexists; (split; [reflexivity|]);
    repeat split; try discriminate; try congruence;
    intros; rewrite ?in_app_iff; simpl; auto.
Qed.

End Evaluator.

Example evaluate_response_mostly_correct :
  evaluate_response (judge := Reference.judge) (parser := Reference.parser)
    "What is AI?" "Something" "The truth" []
  = (Ok (0%float, 0%float), [faithfulness_warning; relevancy_warning]).
Proof. vm_compute. reflexivity. Qed.

Example reference_parser_examples :
  Reference.decimal "1.0" = Some 1%float /\
  Reference.decimal "0.5" = Some 0.5%float /\
  Reference.decimal (strip " 0.0 ") = Some 0%float /\
  Reference.decimal (strip " mostly correct ") = None.
Proof. repeat split; vm_compute; reflexivity. Qed.

(* ================================================================== *)
(** * Semantic chunk assembly *)
(* ================================================================== *)

Lemma unit_groups_nonempty s start bps : unit_groups s start bps <> [].
Proof. destruct bps; discriminate. Qed.

Lemma render_cons g gs :
  gs <> [] -> render (g :: gs) = (join ". " g ++ ".")%string :: render gs.
Proof.
  intros H. unfold render. destruct gs as [|g' gs']; [congruence|]. reflexivity.
Qed.

Lemma split_into_chunks_loop (sentences : list string) (bps : list Z) :
  forall (acc : list string) (start : Z),
    let loop :=
      fold_left
        (fun st bp =>
           (fst st ++ [(join ". " (slice sentences (Some (snd st)) (Some (bp + 1)%Z))
                        ++ ".")%string],
            (bp + 1)%Z))
        bps (acc, start) in
    fst loop ++ [join ". " (slice sentences (Some (snd loop)) None)]
    = acc ++ render (unit_groups sentences start bps).
Proof.
  induction bps as [|bp rest IH]; intros acc start; simpl.
  - reflexivity.
  - rewrite IH. rewrite render_cons by apply unit_groups_nonempty.
    rewrite <- app_assoc. reflexivity.
Qed.

Lemma split_into_chunks_render (sentences : list string) (bps : list Z) :
  split_into_chunks sentences bps = render (unit_groups sentences 0 bps).
Proof.
  unfold split_into_chunks. apply (split_into_chunks_loop sentences bps [] 0%Z).
Qed.

Lemma slice_between {A : Type} (l : list A) (lo hi : Z) :
  (0 <= lo <= hi + 1)%Z -> (hi < Z.of_nat (List.length l))%Z ->
  slice l (Some lo) (Some (hi + 1)%Z) = units_between l lo hi.
Proof.
  intros H1 H2. unfold slice, units_between, adjust_index.
  replace (lo <? 0)%Z with false by (symmetry; apply Z.ltb_ge; lia).
  replace (hi + 1 <? 0)%Z with false by (symmetry; apply Z.ltb_ge; lia).
  rewrite !Z.min_l by lia. f_equal. lia.
Qed.

Lemma slice_from {A : Type} (l : list A) (lo : Z) :
  (0 <= lo <= Z.of_nat (List.length l))%Z ->
  slice l (Some lo) None = skipn (Z.to_nat lo) l.
Proof.
  intros H. unfold slice, adjust_index.
  replace (lo <? 0)%Z with false by (symmetry; apply Z.ltb_ge; lia).
  rewrite Z.min_l by lia. apply firstn_all2. rewrite length_skipn. lia.
Qed.

Lemma units_between_then_rest {A : Type} (l : list A) (lo hi : Z) :
  (0 <= lo <= hi + 1)%Z ->
  units_between l lo hi ++ skipn (Z.to_nat (hi + 1)) l = skipn (Z.to_nat lo) l.
Proof.
  intros H. unfold units_between.
  rewrite <- (firstn_skipn (Z.to_nat (hi - lo + 1)) (skipn (Z.to_nat lo) l)) at 2.
  rewrite skipn_skipn. do 2 f_equal. lia.
Qed.

Lemma last_default {A : Type} (l : list A) (d d' : A) :
  l <> [] -> last l d = last l d'.
Proof.
  induction l as [|x t IH]; intros H; [congruence|].
  destruct t as [|y t']; [reflexivity|].
  change (last (y :: t') d = last (y :: t') d'). apply IH. discriminate.
Qed.

Section Groups.

Variable sentences : list string.

Let N := Z.of_nat (List.length sentences).

Lemma unit_groups_concat (bps : list Z) :
  forall start : Z,
    (0 <= start <= N)%Z ->
    StronglySorted Z.lt bps ->
    Forall (fun b => (start <= b < N)%Z) bps ->
    List.concat (unit_groups sentences start bps) = skipn (Z.to_nat start) sentences.
Proof.
  induction bps as [|bp rest IH]; intros start Hstart Hs Hr; simpl.
  - rewrite app_nil_r. apply slice_from. exact Hstart.
  - apply StronglySorted_inv in Hs. destruct Hs as [Hs Hlt].
    inversion Hr as [|? ? Hbp Hrest]; subst.
    rewrite slice_between by (fold N; lia).
    rewrite IH; [apply units_between_then_rest; lia | lia | exact Hs |].
    rewrite Forall_forall in *. intros b Hb.
    specialize (Hlt b Hb). specialize (Hrest b Hb). lia.
Qed.

Lemma unit_groups_nth (bps : list Z) :
  forall (start : Z) (k : nat) (b : Z),
    (0 <= start)%Z ->
    StronglySorted Z.lt bps ->
    Forall (fun b => (start <= b < N)%Z) bps ->
    nth_error bps k = Some b ->
    nth_error (unit_groups sentences start bps) k
    = Some (units_between sentences
              (match k with O => start | S j => (nth j bps (-1) + 1)%Z end) b).
Proof.
  induction bps as [|bp rest IH]; intros start k b Hstart Hs Hr Hk.
  - destruct k; discriminate.
  - apply StronglySorted_inv in Hs. destruct Hs as [Hs Hlt].
    inversion Hr as [|? ? Hbp Hrest]; subst.
    destruct k as [|j]; simpl in Hk |- *.
    + injection Hk as <-. f_equal. apply slice_between; fold N; lia.
    + rewrite (IH (bp + 1)%Z j b); [| lia | exact Hs | | exact Hk].
      * destruct j; reflexivity.
      * rewrite Forall_forall in *. intros x Hx.
        specialize (Hlt x Hx). specialize (Hrest x Hx). lia.
Qed.

Lemma unit_groups_last (bps : list Z) :
  forall start : Z,
    (0 <= start <= N)%Z ->
    StronglySorted Z.lt bps ->
    Forall (fun b => (start <= b < N)%Z) bps ->
    last (unit_groups sentences start bps) []
    = skipn (Z.to_nat (last bps (start - 1) + 1)%Z) sentences.
Proof.
  induction bps as [|bp rest IH]; intros start Hstart Hs Hr.
  - simpl. rewrite slice_from by exact Hstart. f_equal. lia.
  - apply StronglySorted_inv in Hs. destruct Hs as [Hs Hlt].
    inversion Hr as [|? ? Hbp Hrest]; subst.
    change (last (unit_groups sentences start (bp :: rest)) [])
      with (last (slice sentences (Some start) (Some (bp + 1)%Z)
                    :: unit_groups sentences (bp + 1) rest) []).
    assert (Forall (fun b => (bp + 1 <= b < N)%Z) rest) as Hr'.
    { rewrite Forall_forall in *. intros x Hx.
      specialize (Hlt x Hx). specialize (Hrest x Hx). lia. }
    destruct (unit_groups sentences (bp + 1) rest) as [|g gs] eqn:Hg;
      [exfalso; eapply unit_groups_nonempty; exact Hg|].
    change (last (?a :: g :: gs) []) with (last (g :: gs) []).
    rewrite <- Hg, IH by (try assumption; lia).
    replace (bp + 1 - 1)%Z with bp by lia.
    destruct rest as [|z rest']; [reflexivity|].
    change (last (bp :: z :: rest') (start - 1)%Z) with (last (z :: rest') (start - 1)%Z).
    rewrite (last_default (z :: rest') bp (start - 1)%Z) by discriminate.
    reflexivity.
Qed.

Lemma unit_groups_length (bps : list Z) (start : Z) :
  List.length (unit_groups sentences start bps) = S (List.length bps).
Proof. revert start. induction bps; intros; simpl; [|rewrite IHbps]; reflexivity. Qed.

End Groups.

Lemma last_in_range (n : Z) (bps : list Z) :
  Forall (fun b => (0 <= b < n)%Z) bps -> (0 <= n)%Z ->
  (-1 <= last bps (-1)%Z < Z.max n 0)%Z /\ (bps <> [] -> (0 <= last bps (-1)%Z < n)%Z).
Proof.
  intros Hr Hn. destruct bps as [|b0 rest]; [simpl; split; [lia|congruence]|].
  assert (In (last (b0 :: rest) (-1)%Z) (b0 :: rest)) as Hin.
  { destruct (exists_last (l := b0 :: rest) ltac:(discriminate)) as [l' [a E]].
    rewrite E, last_last. apply in_or_app. right. left. reflexivity. }
  rewrite Forall_forall in Hr. specialize (Hr _ Hin). split; intros; lia.
Qed.

Lemma skipn_last_unit {A : Type} (l : list A) :
  l <> [] ->
  exists u, skipn (List.length l - 1) l = [u]
            /\ nth_error l (List.length l - 1) = Some u.
Proof.
  intros Hne.
  assert (0 < List.length l)%nat as Hpos
    by (destruct l; [congruence | simpl; lia]).
  destruct (skipn (List.length l - 1) l) as [|u t] eqn:E.
  - apply (f_equal (@List.length A)) in E. rewrite length_skipn in E. simpl in E. lia.
  - exists u. split.
    + destruct t as [|v t']; [reflexivity|].
      apply (f_equal (@List.length A)) in E. rewrite length_skipn in E. simpl in E. lia.
    + rewrite <- (Nat.add_0_r (List.length l - 1)), <- nth_error_skipn, E. reflexivity.
Qed.

(** C6, as the specification states it, fails in its last case.  Three
    units have two similarities, at positions 0 and 1.  A breakpoint at
    the last of them, as the detector returns it here, closes the first
    chunk after unit 1 and leaves unit 2 in the trailing chunk, which is
    not empty. *)
Lemma split_into_chunks_last_breakpoint_keeps_last_unit :
  compute_breakpoints (stats := Reference.stats)
    [0.75; 0.25]%float "percentile" 50%float = Ok [1%nat] /\
  breakpoint_set 3 [1]%Z /\
  split_into_chunks ["a"; "b"; "c"]%string [1]%Z = ["a. b."; "c"]%string.
Proof.
  split; [vm_compute; reflexivity|].
  split; [|reflexivity].
  split; repeat constructor; simpl; lia.
Qed.

(** C6, amended.  For strictly increasing breakpoints among the positions
    of the [N] units, the chunks are the text of [length bps + 1] groups
    of units: group [k] holds the units from the previous boundary + 1
    to boundary [k], both included, and the last group holds the units
    after the last boundary.  The groups put end to end are the unit
    sequence itself: no unit is dropped or repeated.  Without breakpoints
    there is one chunk with all the units; breakpoints 1 and 3 over five
    units give the groups of units 0-1, 2-3 and 4.  Over [N >= 1] units,
    with a breakpoint set of the data model (positions of the [N - 1]
    similarities) the trailing chunk is never empty, and a breakpoint at
    the last such position, [N - 2], leaves exactly the last unit in it;
    the trailing group is empty, and emitted as the empty string, exactly
    when the last breakpoint is [N - 1], the last unit itself.  Without
    any unit the one chunk is the empty string. *)
Theorem split_into_chunks_partition (sentences : list string) (bps : list Z) :
  increasing_positions (List.length sentences) bps ->
  exists groups : list (list string),
    split_into_chunks sentences bps = render groups /\
    List.length groups = S (List.length bps) /\
    List.concat groups = sentences /\
    (forall (k : nat) (b : Z),
       nth_error bps k = Some b ->
       nth_error groups k
       = Some (units_between sentences (previous_boundary bps k + 1) b)) /\
    last groups []
      = units_between sentences (last bps (-1)%Z + 1)
          (Z.of_nat (List.length sentences) - 1) /\
    (bps = [] -> split_into_chunks sentences bps = [join ". " sentences]) /\
    (forall s0 s1 s2 s3 s4 : string,
       sentences = [s0; s1; s2; s3; s4] -> bps = [1; 3]%Z ->
       groups = [[s0; s1]; [s2; s3]; [s4]]) /\
    (sentences <> [] -> breakpoint_set (List.length sentences) bps ->
       last groups [] <> []) /\
    (sentences <> [] ->
     last bps (-1)%Z = (Z.of_nat (List.length sentences) - 2)%Z ->
       exists u, last groups [] = [u]
                 /\ nth_error sentences (List.length sentences - 1) = Some u) /\
    (last bps (-1)%Z = (Z.of_nat (List.length sentences) - 1)%Z ->
       last groups [] = [] /\
       exists front, split_into_chunks sentences bps = front ++ [""%string]) /\
    (sentences <> [] -> last groups [] = [] ->
       last bps (-1)%Z = (Z.of_nat (List.length sentences) - 1)%Z) /\
    (sentences = [] -> split_into_chunks sentences bps = [""%string]).
Proof.
  intros [Hs Hr].
  set (N := Z.of_nat (List.length sentences)).
  assert (last (unit_groups sentences 0 bps) []
          = skipn (Z.to_nat (last bps (-1)%Z + 1)) sentences) as Hlast.
  { rewrite (unit_groups_last sentences bps 0%Z) by (try assumption; lia).
    reflexivity. }
  destruct (last_in_range N bps Hr ltac:(unfold N; lia)) as [Hbound _].
  exists (unit_groups sentences 0 bps).
  split; [apply split_into_chunks_render|].
  split; [apply unit_groups_length|].
  split; [rewrite unit_groups_concat by (try assumption; lia); reflexivity|].
  split.
  { intros k b Hk. rewrite (unit_groups_nth sentences bps 0%Z k b) by (try assumption; lia).
    destruct k; reflexivity. }
  split.
  { rewrite Hlast. unfold units_between. symmetry. apply firstn_all2.
    rewrite length_skipn. fold N. lia. }
  split.
  { intros ->. unfold split_into_chunks. simpl. do 2 f_equal. apply (slice_from sentences 0). lia. }
  split.
  { intros s0 s1 s2 s3 s4 -> ->. reflexivity. }
  assert (sentences <> [] -> (0 < List.length sentences)%nat) as Hpos
    by (intros Hne; destruct sentences; [congruence | simpl; lia]).
  split.
  { intros Hne [_ Hsim]. specialize (Hpos Hne). rewrite Hlast.
    destruct (last_in_range (Z.of_nat (List.length sentences - 1)) bps Hsim
                ltac:(lia)) as [Hb _].
    intros Hnil. apply (f_equal (@List.length string)) in Hnil.
    rewrite length_skipn in Hnil. simpl in Hnil. lia. }
  split.
  { intros Hne Hend. specialize (Hpos Hne). rewrite Hlast, Hend.
    replace (Z.to_nat (N - 2 + 1)) with (List.length sentences - 1)%nat
      by (unfold N; lia).
    apply skipn_last_unit. exact Hne. }
  split.
  { intros Hend. rewrite Hlast, Hend.
    assert (skipn (Z.to_nat (N - 1 + 1)) sentences = []) as Hnil.
    { apply skipn_all2. unfold N. lia. }
    split; [exact Hnil|].
    rewrite split_into_chunks_render. unfold render.
    rewrite Hlast, Hend, Hnil. eexists. reflexivity. }
  split.
  { intros Hne Hnil. specialize (Hpos Hne). rewrite Hlast in Hnil.
    apply (f_equal (@List.length string)) in Hnil.
    rewrite length_skipn in Hnil. simpl in Hnil. fold N in Hbound. unfold N in *. lia. }
  intros ->. destruct bps as [|b rest]; [reflexivity|].
  inversion Hr as [|? ? Hb _]; subst. simpl in Hb. lia.
Qed.

(** The theorem at five units with the breakpoints 1 and 3. *)
Lemma split_into_chunks_partition_witness :
  increasing_positions 5 [1; 3]%Z /\
  exists groups : list (list string),
    split_into_chunks ["a"; "b"; "c"; "d"; "e"]%string [1; 3]%Z = render groups /\
    groups = [["a"; "b"]; ["c"; "d"]; ["e"]]%string.
Proof.
  assert (increasing_positions 5 [1; 3]%Z) as Hv.
  { split; repeat constructor; lia. }
  split; [exact Hv|].
  destruct (split_into_chunks_partition ["a"; "b"; "c"; "d"; "e"]%string [1; 3]%Z Hv)
    as [groups [H1 [_ [_ [_ [_ [_ [H7 _]]]]]]]].
  exists groups. split; [exact H1|]. apply H7; reflexivity.
Defined.

Example split_into_chunks_examples :
  split_into_chunks ["a"; "b"; "c"; "d"; "e"]%string [1; 3]%Z
    = ["a. b."; "c. d."; "e"]%string /\
  split_into_chunks ["a"; "b"; "c"; "d"; "e"]%string []
    = ["a. b. c. d. e"]%string /\
  split_into_chunks ["a"; "b"; "c"; "d"; "e"]%string [4]%Z
    = ["a. b. c. d. e."; ""]%string /\
  split_into_chunks ["a"; "b"; "c"; "d"; "e"]%string [3]%Z
    = ["a. b. c. d."; "e"]%string.
Proof. repeat split; reflexivity. Qed.

(* ================================================================== *)
(** * The library sorts: instances that meet the contracts *)
(* ================================================================== *)

Lemma StronglySorted_app_cross {A : Type} (R : A -> A -> Prop) (l1 l2 : list A) :
  StronglySorted R (l1 ++ l2) ->
  StronglySorted R l1 /\ StronglySorted R l2 /\
  forall x y, In x l1 -> In y l2 -> R x y.
Proof.
  induction l1 as [|a l1 IH]; simpl; intros H.
  - split; [constructor|]. split; [exact H|]. intros x y [].
  - apply StronglySorted_inv in H. destruct H as [Hs Hall].
    destruct (IH Hs) as [H1 [H2 H3]]. rewrite Forall_forall in Hall.
    split; [|split; [exact H2|]].
    + constructor; [exact H1|]. apply Forall_forall. intros z Hz.
      apply Hall. apply in_or_app. left. exact Hz.
    + intros x y [<-|Hx] Hy; [|apply H3; assumption].
      apply Hall. apply in_or_app. right. exact Hy.
Qed.

Lemma StronglySorted_snoc {A : Type} (R : A -> A -> Prop) (l : list A) (x : A) :
  StronglySorted R l -> Forall (fun y => R y x) l -> StronglySorted R (l ++ [x]).
Proof.
  induction l as [|a l IH]; simpl; intros Hs Hall.
  - repeat constructor.
  - apply StronglySorted_inv in Hs. destruct Hs as [Hs Ha].
    inversion Hall as [|? ? Hax Hall']; subst.
    constructor; [apply IH; assumption|].
    apply Forall_app. split; [exact Ha | constructor; [exact Hax | constructor]].
Qed.

Lemma StronglySorted_rev {A : Type} (R : A -> A -> Prop) (l : list A) :
  StronglySorted R l -> StronglySorted (fun x y => R y x) (rev l).
Proof.
  induction 1 as [|a l Hs IH Hall]; simpl; [constructor|].
  apply StronglySorted_snoc; [exact IH|].
  apply Forall_forall. intros y Hy. apply in_rev in Hy.
  rewrite Forall_forall in Hall. apply Hall. exact Hy.
Qed.

Lemma StronglySorted_map_in {A B : Type} (R : A -> A -> Prop) (R' : B -> B -> Prop)
    (f : A -> B) (l : list A) :
  (forall x y, In x l -> In y l -> R x y -> R' (f x) (f y)) ->
  StronglySorted R l -> StronglySorted R' (map f l).
Proof.
  induction l as [|a l IH]; simpl; intros Hf Hs; [constructor|].
  apply StronglySorted_inv in Hs. destruct Hs as [Hs Hall].
  constructor.
  - apply IH; [|exact Hs]. intros x y Hx Hy. apply Hf; right; assumption.
  - apply Forall_forall. intros b Hb. apply in_map_iff in Hb.
    destruct Hb as [y [<- Hy]]. rewrite Forall_forall in Hall.
    apply Hf; [left; reflexivity | right; exact Hy | apply Hall; exact Hy].
Qed.

Section StableSort.

Import Reference.

Context {A : Type} (lt : A -> A -> bool).

Lemma insert_by_perm (x : A) (l : list A) :
  Permutation (insert_by lt x l) (x :: l).
Proof.
  induction l as [|y t IH]; simpl; [reflexivity|].
  destruct (lt x y); [reflexivity|].
  rewrite IH. apply perm_swap.
Qed.

Lemma stable_sort_perm_acc (l acc : list A) :
  Permutation (fold_left (fun acc x => insert_by lt x acc) l acc) (acc ++ l).
Proof.
  revert acc. induction l as [|x l IH]; intros acc; simpl.
  - rewrite app_nil_r. reflexivity.
  - rewrite IH, insert_by_perm. apply Permutation_middle.
Qed.

Lemma stable_sort_perm (l : list A) : Permutation (stable_sort lt l) l.
Proof. apply (stable_sort_perm_acc l []). Qed.

(** [R x y]: [x] may stand before [y] in the sorted list. *)
Variable R : A -> A -> Prop.
Hypothesis R_trans : forall x y z, R x y -> R y z -> R x z.

Lemma insert_by_sorted (x : A) (l : list A) :
  StronglySorted R l ->
  (forall y, In y l -> if lt x y then R x y else R y x) ->
  StronglySorted R (insert_by lt x l).
Proof.
  induction l as [|y t IH]; intros Hs Hx; simpl.
  - repeat constructor.
  - apply StronglySorted_inv in Hs. destruct Hs as [Hs Hall].
    pose proof (Hx y (or_introl eq_refl)) as Hxy.
    destruct (lt x y).
    + constructor; [constructor; assumption|].
      constructor; [exact Hxy|].
      eapply Forall_impl; [|exact Hall]. intros z Hz. eapply R_trans; eassumption.
    + constructor.
      * apply IH; [exact Hs|]. intros z Hz. apply Hx. right. exact Hz.
      * apply Forall_forall. intros z Hz.
        apply (Permutation_in _ (insert_by_perm x t)) in Hz.
        destruct Hz as [<-|Hz]; [exact Hxy|].
        rewrite Forall_forall in Hall. apply Hall. exact Hz.
Qed.

Lemma stable_sort_sorted_acc (l : list A) :
  forall acc : list A,
    StronglySorted R acc ->
    (forall x y, In x (acc ++ l) -> In y (acc ++ l) ->
                 if lt x y then R x y else R y x) ->
    StronglySorted R (fold_left (fun acc x => insert_by lt x acc) l acc).
Proof.
  induction l as [|x l IH]; intros acc Hs Hcmp; simpl; [exact Hs|].
  apply IH.
  - apply insert_by_sorted; [exact Hs|]. intros y Hy.
    apply Hcmp; apply in_or_app; [right; left; reflexivity | left; exact Hy].
  - intros y z Hy Hz. apply Hcmp.
    + apply in_app_or in Hy. destruct Hy as [Hy|Hy].
      * apply (Permutation_in _ (insert_by_perm x acc)) in Hy.
        apply in_or_app. destruct Hy as [<-|Hy]; [right; left; reflexivity | left; exact Hy].
      * apply in_or_app. right. right. exact Hy.
    + apply in_app_or in Hz. destruct Hz as [Hz|Hz].
      * apply (Permutation_in _ (insert_by_perm x acc)) in Hz.
        apply in_or_app. destruct Hz as [<-|Hz]; [right; left; reflexivity | left; exact Hz].
      * apply in_or_app. right. right. exact Hz.
Qed.

(** Stability: a class [f] of elements none of which is below another
    keeps its order. *)
Variable f : A -> bool.
Hypothesis f_class : forall x y, f x = true -> f y = true -> lt x y = false.
Hypothesis R_below : forall x y z, lt x y = true -> R y z -> lt x z = true.




End StableSort.

Lemma map_fst_enumerate {A : Type} (l : list A) :
  map fst (enumerate l) = seq 0 (List.length l).
Proof.
  unfold enumerate. generalize 0%nat as s.
  induction l as [|x t IH]; intros s; simpl; [reflexivity|]. rewrite IH. reflexivity.
Qed.

Lemma np_lt_asym (a b : float) : Np.lt a b = true -> Np.lt b a = false.
Proof.
  intros H. destruct (Np.lt b a) eqn:E; [|reflexivity].
  rewrite <- (FloatFacts.np_lt_irrefl a). symmetry.
  apply (FloatFacts.np_lt_trans a b a H E).
Qed.

(** Sorting the (position, value) pairs of an array by value, whatever
    the order they start in, lists the positions in ascending order of
    value. *)
Lemma positions_by_value (a : list float) (pairs : list (nat * float)) :
  Permutation pairs (enumerate a) ->
  let positions :=
    map fst (Reference.stable_sort (fun p q => Np.lt (snd p) (snd q)) pairs) in
  Permutation positions (seq 0 (List.length a)) /\
  StronglySorted (fun i j => Np.lt (nth j a nan) (nth i a nan) = false) positions.
Proof.
  intros Hp. cbv zeta. split.
  - rewrite <- map_fst_enumerate. apply Permutation_map.
    rewrite stable_sort_perm. exact Hp.
  - apply (StronglySorted_map_in
             (fun p q : nat * float => Np.lt (snd q) (snd p) = false)).
    + intros p q Hin Hq Hpq.
      assert (forall r, In r (Reference.stable_sort
                                (fun p q => Np.lt (snd p) (snd q)) pairs) ->
                        nth (fst r) a nan = snd r) as Hval.
      { intros [i v] Hr. apply (Permutation_in _ (stable_sort_perm _ _)) in Hr.
        apply (Permutation_in _ Hp) in Hr.
        apply in_enumerate in Hr. simpl. apply nth_error_nth. exact Hr. }
      rewrite (Hval p Hin), (Hval q Hq). exact Hpq.
    + apply (stable_sort_sorted_acc (fun p q => Np.lt (snd p) (snd q))
               (fun p q : nat * float => Np.lt (snd q) (snd p) = false)).
      * intros x y z Hxy Hyz.
        apply (FloatFacts.np_lt_negtrans (snd z) (snd y) (snd x) Hyz Hxy).
      * constructor.
      * intros x y _ _. destruct (Np.lt (snd x) (snd y)) eqn:E;
          [apply np_lt_asym; exact E | reflexivity].
Qed.

(** The stable [argsort] meets NumPy's contract. *)
Lemma reference_sorter_sorts : Np.sorts Reference.sorter.
Proof.
  split; intros a; apply (positions_by_value a (enumerate a)); reflexivity.
Qed.

(** So does the one that lists equal values from the last to the first. *)
Lemma ties_reversed_sorts : Np.sorts Reference.ties_reversed.
Proof.
  split; intros a; apply (positions_by_value a (rev (enumerate a)));
    symmetry; apply Permutation_rev.
Qed.

(** The contract leaves the order of equal values open: the two sorts
    above both meet it, and they order the array 1, 1, 0, 0 differently. *)
Example argsort_order_of_equal_values :
  Np.argsort (Argsort := Reference.sorter) [1; 1; 0; 0]%float = [2; 3; 0; 1]%nat /\
  Np.argsort (Argsort := Reference.ties_reversed) [1; 1; 0; 0]%float = [3; 2; 1; 0]%nat.
Proof. split; vm_compute; reflexivity. Qed.



(** The interpreter's sort of a short list rearranges the list, whatever
    the keys. *)
Lemma cpython_insert_at_perm {A : Type} (lt : A -> A -> bool) (pre : list A) (pivot : A) :
  Permutation (CPython.insert_at lt pre pivot) (pivot :: pre).
Proof.
  unfold CPython.insert_at.
  set (l := CPython.bisect lt (List.length pre) pre pivot 0 (List.length pre)).
  rewrite <- (firstn_skipn l pre) at 3. symmetry. apply Permutation_middle.
Qed.

Lemma cpython_binarysort_perm {A : Type} (lt : A -> A -> bool) (rest : list A) :
  forall pre : list A,
    Permutation (CPython.binarysort lt pre rest) (pre ++ rest).
Proof.
  unfold CPython.binarysort.
  induction rest as [|x rest IH]; intros pre; simpl.
  - rewrite app_nil_r. reflexivity.
  - rewrite IH, cpython_insert_at_perm. apply Permutation_middle.
Qed.

Lemma cpython_list_sorter_permutes : Py.permutes CPython.list_sorter.
Proof.
  intros A key l. cbn [sort_by_key_desc CPython.list_sorter].
  rewrite <- Permutation_rev.
  transitivity (rev l); [|symmetry; apply Permutation_rev].
  generalize (rev l) as m. clear l. intros m.
  unfold CPython.sort_run.
  destruct m as [|x0 [|x1 t]]; [reflexivity | reflexivity |].
  rewrite cpython_binarysort_perm.
  set (n := fst (CPython.count_run _ (x0 :: x1 :: t))).
  transitivity (firstn n (x0 :: x1 :: t) ++ skipn n (x0 :: x1 :: t));
    [|rewrite firstn_skipn; reflexivity].
  apply Permutation_app_tail.
  destruct (snd (CPython.count_run _ (x0 :: x1 :: t)));
    [symmetry; apply Permutation_rev | reflexivity].
Qed.

Section InterpreterSort.

Context {A : Type} (key : A -> float).

Let lt := fun x y : A => (key x <? key y)%float.
Let num := fun x : A => is_nan (key x) = false.
(** [x] may stand before [y] in the ascending list. *)
Let R := fun x y : A => num x /\ num y /\ lt y x = false.












Variable f : A -> bool.
Hypothesis f_class : forall x y, f x = true -> f y = true -> lt x y = false.




End InterpreterSort.



(** The positions of some scored lists after [sort(key=..., reverse=True)]:
    equal keys keep their order; a NaN key stops a run or the search for
    the place of an element, and the list need not come out in order. *)
Example cpython_list_sorter_examples :
  let positions := fun scores : list (nat * float) =>
    map fst (sort_by_key_desc (ListSort := CPython.list_sorter) snd scores) in
  positions (enumerate [1; 2; 1; 2]%float) = [1; 3; 0; 2]%nat /\
  positions (enumerate [3; nan; 2; 0.5; 4]%float) = [1; 4; 0; 2; 3]%nat /\
  positions (enumerate [1; nan; 2; 0.5]%float) = [0; 1; 2; 3]%nat /\
  positions (enumerate [nan; 1]%float) = [0; 1]%nat /\
  positions (enumerate [2; nan; 3; 1; nan; 5; 4]%float) = [0; 1; 2; 3; 4; 5; 6]%nat.
Proof. cbv zeta. repeat split; vm_compute; reflexivity. Qed.

(* ================================================================== *)
(** * Context-enriched retrieval *)
(* ================================================================== *)

Lemma getitem_head {A : Type} (l : list A) (x : A) :
  hd_error l = Some x -> getitem l 0 = Ok x.
Proof.
  destruct l as [|y t]; simpl; [discriminate|]. intros H. injection H as ->.
  reflexivity.
Qed.


Lemma enumerate_map {A B : Type} (f : A -> B) (l : list A) :
  enumerate (map f l) = map (fun p => (fst p, f (snd p))) (enumerate l).
Proof.
  unfold enumerate. rewrite length_map. generalize 0%nat as a.
  induction l as [|x t IH]; intros a; simpl; [reflexivity|].
  rewrite IH. reflexivity.
Qed.

Lemma similarities_defined (q : list float) (embeddings : list (list float)) :
  Forall (fun e => List.length e = List.length q) embeddings ->
  mapM (cosine_similarity q) embeddings = Ok (map (cosine_value q) embeddings).
Proof.
  intros H. apply mapM_total. intros e He.
  rewrite Forall_forall in H. apply cosine_similarity_defined.
  symmetry. apply H. exact He.
Qed.

Lemma similarity_scores_defined (q : list float) (embeddings : list (list float)) :
  Forall (fun e => List.length e = List.length q) embeddings ->
  mapM (fun p =>
          similarity_score <- cosine_similarity q (snd p) ;;
          Ok (fst p, similarity_score))
       (enumerate embeddings)
  = Ok (enumerate (map (cosine_value q) embeddings)).
Proof.
  intros H. rewrite enumerate_map. apply mapM_total. intros [i e] Hin.
  simpl. rewrite Forall_forall in H.
  rewrite cosine_similarity_defined; [reflexivity|].
  symmetry. apply H. apply in_combine_r in Hin. exact Hin.
Qed.


Section SortedScores.

Context {S : ListSort}.

(** Whatever the keys, the sorted scores of a non-empty series start with
    the score of one of its positions. *)
Lemma sorted_scores_head (sims : list float) :
  Py.permutes S -> sims <> [] ->
  exists best : nat * float,
    hd_error (sort_by_key_desc snd (enumerate sims)) = Some best /\
    nth_error sims (fst best) = Some (snd best).
Proof.
  intros Hperm Hne.
  pose proof (Hperm _ snd (enumerate sims)) as Hp.
  destruct (sort_by_key_desc snd (enumerate sims)) as [|b t] eqn:Hsorted.
  - apply Permutation_nil in Hp. unfold enumerate in Hp.
    destruct sims; [congruence | discriminate].
  - exists b. split; [reflexivity|].
    apply in_enumerate. destruct b as [i s].
    apply (Permutation_in _ Hp). left. reflexivity.
Qed.

Lemma sorted_scores_empty :
  Py.permutes S -> sort_by_key_desc snd (@nil (nat * float)) = [].
Proof.
  intros Hperm. apply Permutation_nil. symmetry. apply Hperm.
Qed.


End SortedScores.




Example context_enriched_search_examples :
  (* best match at position 0, context 2: the window is clamped to 0..2 *)
  context_enriched_search (embedder := Reference.embedder)
    (list_sorter := CPython.list_sorter) "q"
    ["a"; "b"; "c"; "d"]%string [[1; 0]; [1; 0]; [0; 1]; [1; 1]]%float 1 2
  = Ok ["a"; "b"; "c"]%string /\
  (* best match at position 2, context 1 *)
  context_enriched_search (embedder := Reference.embedder)
    (list_sorter := CPython.list_sorter) "q"
    ["a"; "b"; "c"; "d"]%string [[0; 1]; [0; 1]; [1; 0]; [1; 1]]%float 1 1
  = Ok ["b"; "c"; "d"]%string /\
  (* no chunk at all: the first element of the empty ranking does not exist *)
  context_enriched_search (embedder := Reference.embedder)
    (list_sorter := CPython.list_sorter) "q" [] [] 1 1
  = Raise IndexError.
Proof. repeat split; vm_compute; reflexivity. Qed.

(** C10.  The parameter [k] of the context-enriched search has no
    influence on its result: two calls that differ only in [k] return the
    same thing (the same chunks, or the same exception).  Whatever [k]
    is, the result is the window of [context_size] chunks on each side of
    the one best match. *)
Theorem context_enriched_search_ignores_k {E : Embedder} {S : ListSort}
    (query : string) (text_chunks : list string)
    (embeddings : list (list float)) (context_size : Z) :
  (forall k1 k2 : Z,
     context_enriched_search query text_chunks embeddings k1 context_size
     = context_enriched_search query text_chunks embeddings k2 context_size) /\
  (forall k : Z,
     context_enriched_search query text_chunks embeddings k context_size
     = (top <- best_match query embeddings ;;
        context_window text_chunks top context_size)).
Proof.
  split; [reflexivity|].
  intros k. unfold context_enriched_search, best_match, context_window.
  destruct (mapM _ (enumerate embeddings)) as [scores|e]; [|reflexivity].
  cbn [bind].
  destruct (getitem (sort_by_key_desc snd scores) 0) as [best|e]; reflexivity.
Qed.

Example context_enriched_search_any_k :
  context_enriched_search (embedder := Reference.embedder)
    (list_sorter := CPython.list_sorter) "q"
    ["a"; "b"; "c"; "d"]%string [[0; 1]; [0; 1]; [1; 0]; [1; 1]]%float 3 1
  = Ok ["b"; "c"; "d"]%string /\
  context_enriched_search (embedder := Reference.embedder)
    (list_sorter := CPython.list_sorter) "q"
    ["a"; "b"; "c"; "d"]%string [[0; 1]; [0; 1]; [1; 0]; [1; 1]]%float 0 1
  = Ok ["b"; "c"; "d"]%string.
Proof. split; vm_compute; reflexivity. Qed.

(* ================================================================== *)
(** * Plain top-k retrieval *)
(* ================================================================== *)

(** [l[-k:]] for a positive [k]: the last [k] elements, or all of them. *)
Lemma slice_last {A : Type} (l : list A) (k : Z) :
  (1 <= k)%Z ->
  slice l (Some (- k)%Z) None
  = skipn (List.length l - Nat.min (Z.to_nat k) (List.length l)) l.
Proof.
  intros Hk. unfold slice, adjust_index.
  replace (- k <? 0)%Z with true by (symmetry; apply Z.ltb_lt; lia).
  replace (Z.to_nat (Z.max 0 (- k + Z.of_nat (List.length l))))
    with (List.length l - Nat.min (Z.to_nat k) (List.length l))%nat by lia.
  apply firstn_all2. rewrite length_skipn. lia.
Qed.

(** [l[-0:]] is the whole list. *)
Lemma slice_last_zero {A : Type} (l : list A) :
  slice l (Some (- 0)%Z) None = l.
Proof.
  unfold slice, adjust_index. simpl. rewrite Z.min_l by lia.
  rewrite Z.sub_0_r, Nat2Z.id. apply firstn_all.
Qed.

Lemma retrieve_relevant_chunks_semantic_search {E : Embedder} {S : Np.Argsort}
    (query : string) (text_chunks : list string)
    (chunk_embeddings : list (list float)) (k : Z) :
  retrieve_relevant_chunks query text_chunks chunk_embeddings k
  = semantic_search query text_chunks chunk_embeddings k.
Proof. reflexivity. Qed.

(** What "not below" says of two similarities: the first is a NaN, or
    both are numbers and the first is not less than the second. *)
Lemma not_below_iff (similarities : list float) (i j : nat) :
  let a := nth i similarities nan in
  let b := nth j similarities nan in
  not_below similarities i j
  <-> is_nan a = true \/ (is_nan b = false /\ (a <? b)%float = false).
Proof.
  cbv zeta. unfold not_below, Np.lt.
  set (a := nth i similarities nan). set (b := nth j similarities nan).
  destruct (is_nan a) eqn:Ha.
  - rewrite (FloatFacts.ltb_nan_l a b Ha), andb_false_r. simpl. tauto.
  - rewrite andb_true_r. destruct (is_nan b) eqn:Hb.
    + rewrite orb_true_r. split; [discriminate|]. intros [H|[H _]]; discriminate.
    + rewrite orb_false_r. split; [intros H; right; split; [reflexivity | exact H]|].
      intros [H|[_ H]]; [discriminate | exact H].
Qed.

(** The ascending ranking of two similarities, the first above the
    second, under any sort that meets the contract. *)
Lemma argsort_of_two {S : Np.Argsort} :
  Np.sorts S -> Np.argsort [1; 0]%float = [1; 0]%nat.
Proof.
  intros [Hperm Hasc].
  specialize (Hperm [1; 0]%float). specialize (Hasc [1; 0]%float).
  apply Permutation_sym, Permutation_length_2_inv in Hperm.
  destruct Hperm as [H|H]; [|exact H].
  rewrite H in Hasc. apply StronglySorted_inv in Hasc.
  destruct Hasc as [_ Hall]. inversion Hall as [|? ? Habs _]; subst.
  vm_compute in Habs. discriminate.
Qed.

(** C1, as the specification states it, fails for [k = 0]: the slice
    [[-0:]] is the whole ranking, and both retrievers return every chunk
    where the claim has them return the [k] best, that is none.  The two
    chunks below have the similarities 1 and 0, and the result is the
    same with every [np.argsort] that meets NumPy's contract. *)
Lemma semantic_search_zero_k_returns_all :
  get_embedding (Embedder := Reference.embedder) "q" = [1; 0]%float /\
  mapM (cosine_similarity [1; 0]%float) [[1; 0]; [0; 1]]%float = Ok [1; 0]%float /\
  (forall S : Np.Argsort,
     Np.sorts S ->
     semantic_search (embedder := Reference.embedder) (sorter := S) "q"
       ["first"; "second"]%string [[1; 0]; [0; 1]]%float 0
     = Ok ["first"; "second"]%string /\
     retrieve_relevant_chunks (embedder := Reference.embedder) (sorter := S) "q"
       ["first"; "second"]%string [[1; 0]; [0; 1]]%float 0
     = Ok ["first"; "second"]%string) /\
  semantic_search (embedder := Reference.embedder) (sorter := Reference.sorter) "q"
    ["first"; "second"]%string [[1; 0]; [0; 1]]%float 0
  = Ok ["first"; "second"]%string.
Proof.
  split; [reflexivity|]. split; [reflexivity|]. split; [|reflexivity].
  intros S HS.
  assert (semantic_search (embedder := Reference.embedder) (sorter := S) "q"
            ["first"; "second"]%string [[1; 0]; [0; 1]]%float 0
          = Ok ["first"; "second"]%string) as Hrun.
  { unfold semantic_search.
    change (mapM (cosine_similarity (get_embedding "q")) [[1; 0]; [0; 1]]%float)
      with (Ok [1; 0]%float).
    cbn [bind]. rewrite slice_last_zero, (argsort_of_two HS). reflexivity. }
  split; [exact Hrun|].
  rewrite retrieve_relevant_chunks_semantic_search. exact Hrun.
Qed.

(** C1, amended.  For [k >= 1], over [N] chunks each with an embedding of
    the dimension of the query's, both retrieval functions return
    without error the chunks at [min(k, N)] distinct positions, in
    descending order of similarity: no returned chunk is below a chunk
    returned after it, and none is below a chunk that is left out.  The
    order is the one NumPy sorts floats by, in which a NaN similarity
    stands above every number.  With [k >= N] all the chunks are
    returned.  This holds with every [np.argsort] that meets NumPy's
    contract, which leaves open the order of chunks of equal
    similarity. *)
Theorem semantic_search_top_k {E : Embedder} {S : Np.Argsort}
    (query : string) (text_chunks : list string)
    (chunk_embeddings : list (list float)) (k : Z) :
  Np.sorts S ->
  (1 <= k)%Z ->
  List.length chunk_embeddings = List.length text_chunks ->
  Forall (fun e => List.length e = List.length (get_embedding query))
         chunk_embeddings ->
  exists (similarities : list float) (top_indices : list nat),
    mapM (cosine_similarity (get_embedding query)) chunk_embeddings
      = Ok similarities /\
    semantic_search query text_chunks chunk_embeddings k
      = Ok (map (fun i => nth i text_chunks ""%string) top_indices) /\
    retrieve_relevant_chunks query text_chunks chunk_embeddings k
      = Ok (map (fun i => nth i text_chunks ""%string) top_indices) /\
    List.length top_indices = Nat.min (Z.to_nat k) (List.length text_chunks) /\
    NoDup top_indices /\
    Forall (fun i => (i < List.length text_chunks)%nat) top_indices /\
    StronglySorted (not_below similarities) top_indices /\
    (forall i j : nat,
       In i top_indices -> (j < List.length text_chunks)%nat ->
       ~ In j top_indices -> not_below similarities i j) /\
    (forall i j : nat,
       not_below similarities i j
       <-> is_nan (nth i similarities nan) = true \/
           (is_nan (nth j similarities nan) = false /\
            (nth i similarities nan <? nth j similarities nan)%float = false)) /\
    ((Z.of_nat (List.length text_chunks) <= k)%Z ->
     Permutation top_indices (seq 0 (List.length text_chunks))).
Proof.
  intros [Hperm Hasc] Hk Hlen Hdim.
  set (q := get_embedding query).
  set (sims := map (cosine_value q) chunk_embeddings).
  set (N := List.length text_chunks).
  assert (List.length sims = N) as Hsl
    by (unfold sims; rewrite length_map; exact Hlen).
  specialize (Hperm sims). rewrite Hsl in Hperm.
  assert (List.length (Np.argsort sims) = N) as Hal
    by (rewrite (Permutation_length Hperm); apply length_seq).
  set (m := (N - Nat.min (Z.to_nat k) N)%nat).
  set (top := rev (skipn m (Np.argsort sims))).
  assert (forall i, In i top -> (i < N)%nat) as Hin_range.
  { intros i Hi. unfold top in Hi. apply in_rev in Hi.
    assert (In i (Np.argsort sims)) as Hi'.
    { rewrite <- (firstn_skipn m (Np.argsort sims)). apply in_or_app. right. exact Hi. }
    apply (Permutation_in _ Hperm) in Hi'. apply in_seq in Hi'. lia. }
  assert (semantic_search query text_chunks chunk_embeddings k
          = Ok (map (fun i => nth i text_chunks ""%string) top)) as Hrun.
  { unfold semantic_search. fold q.
    rewrite (similarities_defined q chunk_embeddings Hdim). fold sims.
    unfold bind. rewrite slice_last by exact Hk. rewrite Hal. fold m top.
    apply mapM_total. intros i Hi.
    rewrite (getitem_in_range text_chunks (Z.of_nat i) ""%string).
    - rewrite Nat2Z.id. reflexivity.
    - specialize (Hin_range i Hi). fold N. lia. }
  exists sims, top.
  split; [apply similarities_defined; exact Hdim|].
  split; [exact Hrun|].
  split; [rewrite retrieve_relevant_chunks_semantic_search; exact Hrun|].
  pose proof (Hasc sims) as Hsorted.
  rewrite <- (firstn_skipn m (Np.argsort sims)) in Hsorted.
  apply StronglySorted_app_cross in Hsorted.
  destruct Hsorted as [_ [Hsuffix Hcross]].
  split.
  { unfold top. rewrite length_rev, length_skipn, Hal. unfold m. lia. }
  split.
  { unfold top. apply NoDup_rev.
    assert (NoDup (Np.argsort sims)) as Hnd.
    { apply (Permutation_NoDup (Permutation_sym Hperm)). apply seq_NoDup. }
    rewrite <- (firstn_skipn m (Np.argsort sims)) in Hnd.
    apply NoDup_app_remove_l in Hnd. exact Hnd. }
  split; [apply Forall_forall; exact Hin_range|].
  split.
  { unfold top. apply (StronglySorted_rev _ _ Hsuffix). }
  split.
  { intros i j Hi Hj Hnot. apply Hcross.
    - assert (In j (Np.argsort sims)) as Hj'.
      { apply (Permutation_in _ (Permutation_sym Hperm)). apply in_seq. lia. }
      rewrite <- (firstn_skipn m (Np.argsort sims)) in Hj'.
      apply in_app_or in Hj'. destruct Hj' as [Hj'|Hj']; [exact Hj'|].
      exfalso. apply Hnot. unfold top. apply -> in_rev. exact Hj'.
    - unfold top in Hi. apply in_rev in Hi. exact Hi. }
  split; [intros i j; apply not_below_iff|].
  intros Hall. unfold top.
  replace m with 0%nat by (unfold m; lia). rewrite skipn_0.
  rewrite <- Hperm. symmetry. apply Permutation_rev.
Qed.

(** The theorem on five chunks, two of which tie for the best match. *)
Lemma semantic_search_top_k_witness :
  Np.sorts Reference.sorter /\ (1 <= 2)%Z /\
  exists top_indices : list nat,
    semantic_search (embedder := Reference.embedder) (sorter := Reference.sorter) "q"
      ["a"; "b"; "c"; "d"; "e"]%string
      [[0; 1]; [1; 0]; [1; 1]; [1; 0]; [1; 2]]%float 2
    = Ok (map (fun i => nth i ["a"; "b"; "c"; "d"; "e"]%string ""%string) top_indices) /\
    List.length top_indices = 2%nat.
Proof.
  split; [exact reference_sorter_sorts|]. split; [lia|].
  destruct (semantic_search_top_k (E := Reference.embedder) (S := Reference.sorter) "q"
              ["a"; "b"; "c"; "d"; "e"]%string
              [[0; 1]; [1; 0]; [1; 1]; [1; 0]; [1; 2]]%float 2)
    as [sims [top [_ [H2 [_ [H4 _]]]]]].
  - exact reference_sorter_sorts.
  - lia.
  - reflexivity.
  - repeat constructor.
  - exists top. split; [exact H2 | exact H4].
Defined.

(** Two chunks of equal similarity and [k = 1]: which one is returned is
    up to the sort.  Both sorts below meet NumPy's contract. *)
Example semantic_search_tie_depends_on_sort :
  semantic_search (embedder := Reference.embedder) (sorter := Reference.sorter) "q"
    ["first"; "second"]%string [[1; 0]; [1; 0]]%float 1 = Ok ["second"%string] /\
  semantic_search (embedder := Reference.embedder) (sorter := Reference.ties_reversed) "q"
    ["first"; "second"]%string [[1; 0]; [1; 0]]%float 1 = Ok ["first"%string].
Proof. split; vm_compute; reflexivity. Qed.

(** Five chunks of distinct similarities 0, 1, 0.707..., 0.894... and
    0.447...: the ranking is the same with every sort. *)
Example semantic_search_examples :
  semantic_search (embedder := Reference.embedder) (sorter := Reference.sorter) "q"
    ["a"; "b"; "c"; "d"; "e"]%string
    [[0; 1]; [1; 0]; [1; 1]; [2; 1]; [1; 2]]%float 2 = Ok ["b"; "d"]%string /\
  semantic_search (embedder := Reference.embedder) (sorter := Reference.ties_reversed) "q"
    ["a"; "b"; "c"; "d"; "e"]%string
    [[0; 1]; [1; 0]; [1; 1]; [2; 1]; [1; 2]]%float 10
  = Ok ["b"; "d"; "c"; "e"; "a"]%string.
Proof. split; vm_compute; reflexivity. Qed.

(* ================================================================== *)
(** * Further properties: strings and fixed-window chunks *)
(* ================================================================== *)

Lemma substring_clip (t : string) (i m : nat) :
  substring i m t = substring i (Nat.min m (String.length t - i)) t.
Proof.
  revert i m. induction t as [|c t IH]; intros i m.
  - destruct i, m; reflexivity.
  - destruct i as [|i].
    + destruct m as [|m]; [reflexivity|]. simpl. f_equal.
      rewrite (IH 0%nat m). rewrite Nat.sub_0_r. reflexivity.
    + simpl. apply IH.
Qed.

Lemma substring_all (t : string) (m : nat) :
  (String.length t <= m)%nat -> substring 0 m t = t.
Proof.
  revert m. induction t as [|c t IH]; intros m H.
  - destruct m; reflexivity.
  - destruct m as [|m]; [simpl in H; lia|]. simpl. f_equal. apply IH. simpl in H. lia.
Qed.

Lemma substring_split (t : string) (i a b : nat) :
  substring i (a + b) t = (substring i a t ++ substring (i + a) b t)%string.
Proof.
  revert i a. induction t as [|c t IH]; intros i a.
  - destruct i, a, b; reflexivity.
  - destruct i as [|i].
    + destruct a as [|a].
      * reflexivity.
      * simpl. f_equal. apply (IH 0%nat a).
    + simpl. apply IH.
Qed.

Lemma substring_prefix_of_substring (t : string) (i m a : nat) :
  substring 0 a (substring i m t) = substring i (Nat.min a m) t.
Proof.
  revert i m a. induction t as [|c t IH]; intros i m a.
  - destruct i, m, a; reflexivity.
  - destruct i as [|i].
    + destruct m as [|m]; [rewrite Nat.min_0_r; destruct a; reflexivity|].
      destruct a as [|a]; [reflexivity|]. simpl. f_equal. apply (IH 0%nat).
    + simpl. apply IH.
Qed.

Lemma get_substring (t : string) (i m p : nat) :
  String.get p (substring i m t) = if (p <? m)%nat then String.get (i + p) t else None.
Proof.
  destruct (p <? m)%nat eqn:E.
  - apply Nat.ltb_lt in E. rewrite substring_correct1 by exact E. f_equal. lia.
  - apply Nat.ltb_ge in E. apply substring_correct2. exact E.
Qed.

Lemma get_beyond (t : string) (p : nat) :
  (String.length t <= p)%nat -> String.get p t = None.
Proof.
  revert p. induction t as [|c t IH]; intros p H; [reflexivity|].
  destruct p as [|p]; [simpl in H; lia|]. simpl. apply IH. simpl in H. lia.
Qed.

Lemma append_empty_r (s : string) : (s ++ "")%string = s.
Proof. induction s as [|c s IH]; simpl; [reflexivity | rewrite IH; reflexivity]. Qed.

Lemma append_assoc (a b c : string) : ((a ++ b) ++ c)%string = (a ++ (b ++ c))%string.
Proof. induction a as [|x a IH]; simpl; [reflexivity | rewrite IH; reflexivity]. Qed.

Lemma append_length (a b : string) :
  String.length (a ++ b) = (String.length a + String.length b)%nat.
Proof. induction a as [|x a IH]; simpl; [reflexivity | rewrite IH; reflexivity]. Qed.

Lemma join_cons (sep x : string) (l : list string) :
  l <> [] -> join sep (x :: l) = (x ++ sep ++ join sep l)%string.
Proof. destruct l; [congruence | reflexivity]. Qed.

Lemma join_app (sep : string) (a b : list string) :
  a <> [] -> b <> [] ->
  join sep (a ++ b) = (join sep a ++ sep ++ join sep b)%string.
Proof.
  induction a as [|x a IH]; intros Ha Hb; [congruence|].
  destruct a as [|y a'].
  - simpl app. rewrite join_cons by exact Hb. reflexivity.
  - change ((x :: y :: a') ++ b) with (x :: ((y :: a') ++ b)).
    rewrite join_cons by discriminate.
    rewrite IH by (try discriminate; exact Hb).
    rewrite (join_cons sep x (y :: a')) by discriminate.
    rewrite !append_assoc. reflexivity.
Qed.

Lemma concat_empty_cons (x : string) (l : list string) :
  String.concat "" (x :: l) = (x ++ String.concat "" l)%string.
Proof.
  destruct l as [|y l]; [simpl; rewrite append_empty_r; reflexivity | reflexivity].
Qed.

Lemma concat_empty_app (a b : list string) :
  String.concat "" (a ++ b) = (String.concat "" a ++ String.concat "" b)%string.
Proof.
  induction a as [|x a IH]; [reflexivity|].
  change ((x :: a) ++ b) with (x :: (a ++ b)).
  rewrite !concat_empty_cons, IH, append_assoc. reflexivity.
Qed.

Lemma concat_strides (t : string) (s cnt : nat) :
  String.concat "" (map (fun j => substring (j * s) s t) (seq 0 cnt))
  = substring 0 (cnt * s) t.
Proof.
  induction cnt as [|cnt IH].
  - simpl. destruct t; reflexivity.
  - rewrite seq_S, map_app, concat_empty_app, IH. simpl map.
    rewrite concat_empty_cons. simpl String.concat. rewrite append_empty_r.
    replace (S cnt * s)%nat with (cnt * s + s)%nat by lia.
    rewrite substring_split. reflexivity.
Qed.

Lemma str_slice_clipped (text : string) (i n : Z) :
  (0 <= i < Z.of_nat (String.length text))%Z -> (0 < n)%Z ->
  str_slice text i (i + n) = substring (Z.to_nat i) (Z.to_nat n) text.
Proof.
  intros Hi Hn. rewrite str_slice_window by assumption.
  rewrite (substring_clip text (Z.to_nat i) (Z.to_nat n)). f_equal. lia.
Qed.

Lemma chunk_text_chunks (text : string) (n overlap : Z) :
  (overlap < n)%Z -> (0 < n)%Z ->
  chunk_text text n overlap =
    Ok (map (fun j => substring (j * Z.to_nat (n - overlap)) (Z.to_nat n) text)
            (seq 0 (Z.to_nat (ceil_div (Z.of_nat (String.length text)) (n - overlap))))).
Proof.
  intros Ho Hn. rewrite chunk_text_forward by exact Ho. f_equal.
  unfold range_list. rewrite range_len_forward by lia.
  rewrite map_map. apply map_ext_in. intros j Hj. apply in_seq in Hj.
  set (len := Z.of_nat (String.length text)) in *.
  set (s := (n - overlap)%Z) in *.
  assert (0 < s)%Z as Hs by (unfold s; lia).
  destruct (ceil_div_spec len s Hs ltac:(unfold len; lia)) as [_ Hc].
  assert (0 <= Z.of_nat j * s < len)%Z as Hstart by nia.
  simpl (0 + _)%Z. rewrite str_slice_clipped by (fold len; lia).
  f_equal. nia.
Qed.

(** X1.  With [0 <= overlap < n] no character of the text is lost or
    reordered: the first [n - overlap] characters of every chunk, put end
    to end, are the text. *)
Theorem chunk_text_reconstructs (text : string) (n overlap : Z) :
  (0 <= overlap < n)%Z ->
  exists chunks : list string,
    chunk_text text n overlap = Ok chunks /\
    String.concat ""
      (map (fun chunk => substring 0 (Z.to_nat (n - overlap)) chunk) chunks)
    = text.
Proof.
  intros [Ho Hn]. eexists. split; [apply chunk_text_chunks; lia|].
  rewrite map_map.
  set (s := Z.to_nat (n - overlap)).
  set (cnt := Z.to_nat (ceil_div (Z.of_nat (String.length text)) (n - overlap))).
  rewrite (map_ext _ (fun j => substring (j * s) s text)).
  - rewrite concat_strides. apply substring_all.
    destruct (ceil_div_spec (Z.of_nat (String.length text)) (n - overlap)
                ltac:(lia) ltac:(lia)) as [Hc _].
    unfold cnt, s.
    assert (0 <= ceil_div (Z.of_nat (String.length text)) (n - overlap))%Z
      by (unfold ceil_div; apply Z.div_pos; lia).
    nia.
  - intros j. rewrite substring_prefix_of_substring. f_equal. unfold s. lia.
Qed.

(** The theorem at a concrete input. *)
Lemma chunk_text_reconstructs_witness :
  (0 <= 1 < 4)%Z /\
  exists chunks : list string,
    chunk_text "abcdefghij" 4 1 = Ok chunks /\
    String.concat "" (map (fun chunk => substring 0 (Z.to_nat (4 - 1)) chunk) chunks)
    = "abcdefghij"%string.
Proof.
  split; [lia | apply (chunk_text_reconstructs "abcdefghij" 4 1); lia].
Defined.


(** X2.  With [0 <= overlap < n] consecutive chunks share the overlap:
    the characters of a chunk from offset [n - overlap] on are the first
    [overlap] characters of the next chunk (where the text ends, both
    end). *)
Theorem chunk_text_shares_overlap (text : string) (n overlap : Z) :
  (0 <= overlap < n)%Z ->
  exists chunks : list string,
    chunk_text text n overlap = Ok chunks /\
    forall (k : nat) (chunk next : string),
      nth_error chunks k = Some chunk ->
      nth_error chunks (S k) = Some next ->
      forall j : nat,
        (Z.of_nat j < overlap)%Z ->
        String.get (Z.to_nat (n - overlap) + j) chunk = String.get j next.
Proof.
  intros [Ho Hn]. eexists. split; [apply chunk_text_chunks; lia|].
  intros k chunk next Hk Hk1 j Hj.
  rewrite nth_error_map in Hk, Hk1.
  destruct (nth_error (seq 0 _) k) as [a|] eqn:Ea; [|discriminate].
  destruct (nth_error (seq 0 _) (S k)) as [b|] eqn:Eb; [|discriminate].
  simpl in Hk, Hk1. injection Hk as <-. injection Hk1 as <-.
  assert (a = k) as ->.
  { rewrite nth_error_seq in Ea. destruct (k <? _)%nat; inversion Ea. reflexivity. }
  assert (b = S k) as ->.
  { rewrite nth_error_seq in Eb. destruct (S k <? _)%nat; inversion Eb. reflexivity. }
  rewrite !get_substring.
  replace (Z.to_nat (n - overlap) + j <? Z.to_nat n)%nat with true
    by (symmetry; apply Nat.ltb_lt; lia).
  replace (j <? Z.to_nat n)%nat with true by (symmetry; apply Nat.ltb_lt; lia).
  f_equal. lia.
Qed.

(** The theorem at a concrete input. *)
Lemma chunk_text_shares_overlap_witness :
  (0 <= 2 < 5)%Z /\
  exists chunks : list string,
    chunk_text "abcdefghij" 5 2 = Ok chunks /\
    forall (k : nat) (chunk next : string),
      nth_error chunks k = Some chunk ->
      nth_error chunks (S k) = Some next ->
      forall j : nat,
        (Z.of_nat j < 2)%Z ->
        String.get (Z.to_nat (5 - 2) + j) chunk = String.get j next.
Proof.
  split; [lia | apply (chunk_text_shares_overlap "abcdefghij" 5 2); lia].
Defined.

Example chunk_text_overlap_example :
  chunk_text "abcdefghij" 5 2 = Ok ["abcde"; "defgh"; "ghij"; "j"]%string.
Proof. reflexivity. Qed.


(** X3.  With [overlap < n] the chunker returns no chunk exactly when the
    text is empty. *)
Theorem chunk_text_empty_iff (text : string) (n overlap : Z) :
  (overlap < n)%Z ->
  exists chunks : list string,
    chunk_text text n overlap = Ok chunks /\
    (chunks = [] <-> text = ""%string).
Proof.
  intros Ho. eexists. split; [apply chunk_text_forward; exact Ho|].
  unfold range_list. rewrite range_len_forward by lia.
  set (len := Z.of_nat (String.length text)).
  destruct (ceil_div_spec len (n - overlap) ltac:(lia) ltac:(unfold len; lia))
    as [Hc1 Hc2].
  split.
  - intros H. apply (f_equal (@List.length string)) in H.
    rewrite !length_map, length_seq in H. simpl in H.
    destruct text; [reflexivity|]. unfold len in *. simpl String.length in *. nia.
  - intros ->. unfold len in *. simpl String.length in *.
    replace (Z.to_nat (ceil_div (Z.of_nat 0) (n - overlap))) with 0%nat
      by (simpl Z.of_nat in *; nia).
    reflexivity.
Qed.

(** The theorem at a concrete input. *)
Lemma chunk_text_empty_iff_witness :
  (1 < 4)%Z /\
  exists chunks : list string,
    chunk_text "" 4 1 = Ok chunks /\ (chunks = [] <-> ""%string = ""%string).
Proof.
  split; [lia | apply (chunk_text_empty_iff "" 4 1); lia].
Defined.


(* ================================================================== *)
(** * Further properties: cosine similarity *)
(* ================================================================== *)

Lemma float_mul_comm (x y : float) : (x * y)%float = (y * x)%float.
Proof.
  apply Prim2SF_inj. rewrite !mul_spec. unfold SF64mul, SFmul.
  destruct (Prim2SF x) as [sx|sx| |sx mx ex], (Prim2SF y) as [sy|sy| |sy my ey];
    try reflexivity; try (rewrite xorb_comm; reflexivity).
  rewrite xorb_comm, Pos.mul_comm, Z.add_comm. reflexivity.
Qed.

Lemma dot_sum_comm (a b : list float) : Np.dot_sum a b = Np.dot_sum b a.
Proof.
  unfold Np.dot_sum. generalize 0%float as acc. revert b.
  induction a as [|x a IH]; intros b acc; destruct b as [|y b]; simpl;
    try reflexivity.
  rewrite (float_mul_comm x y). apply IH.
Qed.

(** X4.  The cosine similarity is symmetric, bit for bit and in its
    error too; it raises [ValueError] exactly when the two dimensions
    differ, and never anything else. *)
Theorem cosine_similarity_symmetric (vec1 vec2 : list float) :
  cosine_similarity vec1 vec2 = cosine_similarity vec2 vec1 /\
  (cosine_similarity vec1 vec2 = Raise ValueError
   <-> List.length vec1 <> List.length vec2) /\
  cosine_similarity vec1 vec2 <> Raise IndexError.
Proof.
  unfold cosine_similarity, Np.dot.
  rewrite (Nat.eqb_sym (List.length vec2)).
  destruct (List.length vec1 =? List.length vec2)%nat eqn:E; cbn [bind].
  - apply Nat.eqb_eq in E. split; [|split].
    + rewrite dot_sum_comm, (float_mul_comm (Np.norm vec1)). reflexivity.
    + split; [discriminate | congruence].
    + discriminate.
  - apply Nat.eqb_neq in E. split; [reflexivity|]. split; [tauto | discriminate].
Qed.

(* ================================================================== *)
(** * Further properties: context-enriched retrieval *)
(* ================================================================== *)

(** The first exception of a comprehension, when its body raises only
    one kind of exception. *)
Lemma mapM_raise {A B : Type} (f : A -> result B) (e : exn) (l : list A) :
  (forall x, In x l -> (exists y, f x = Ok y) \/ f x = Raise e) ->
  Exists (fun x => f x = Raise e) l ->
  mapM f l = Raise e.
Proof.
  induction l as [|x t IH]; intros Hall Hex; [inversion Hex|].
  simpl. destruct (Hall x (or_introl eq_refl)) as [[y Hy]|Hx].
  - rewrite Hy. rewrite IH; [reflexivity | |].
    + intros z Hz. apply Hall. right. exact Hz.
    + inversion Hex as [? ? H|? ? H]; subst; [congruence | exact H].
  - rewrite Hx. reflexivity.
Qed.

Lemma cosine_similarity_mismatch (vec1 vec2 : list float) :
  List.length vec1 <> List.length vec2 ->
  cosine_similarity vec1 vec2 = Raise ValueError.
Proof.
  intros H. unfold cosine_similarity, Np.dot.
  apply Nat.eqb_neq in H. rewrite H. reflexivity.
Qed.

Lemma cosine_similarity_cases (vec1 vec2 : list float) :
  (exists y, cosine_similarity vec1 vec2 = Ok y) \/
  cosine_similarity vec1 vec2 = Raise ValueError.
Proof.
  destruct (Nat.eq_dec (List.length vec1) (List.length vec2)) as [H|H].
  - left. eexists. apply cosine_similarity_defined. exact H.
  - right. apply cosine_similarity_mismatch. exact H.
Qed.

Lemma similarities_mismatch (q : list float) (embeddings : list (list float)) :
  Exists (fun e => List.length e <> List.length q) embeddings ->
  mapM (cosine_similarity q) embeddings = Raise ValueError.
Proof.
  intros H. apply mapM_raise.
  - intros e _. apply cosine_similarity_cases.
  - eapply Exists_impl; [|exact H]. simpl. intros e He.
    apply cosine_similarity_mismatch. congruence.
Qed.

Lemma similarity_scores_mismatch (q : list float) (embeddings : list (list float)) :
  Exists (fun e => List.length e <> List.length q) embeddings ->
  mapM (fun p =>
          similarity_score <- cosine_similarity q (snd p) ;;
          Ok (fst p, similarity_score))
       (enumerate embeddings)
  = Raise ValueError.
Proof.
  intros H. apply mapM_raise.
  - intros [i e] _. simpl.
    destruct (cosine_similarity_cases q e) as [[y Hy]|Hy]; rewrite Hy;
      [left; eexists; reflexivity | right; reflexivity].
  - apply Exists_exists in H. destruct H as [e [Hin He]].
    apply In_nth_error in Hin. destruct Hin as [i Hi].
    apply Exists_exists. exists (i, e). split; [apply in_enumerate; exact Hi|].
    simpl. rewrite cosine_similarity_mismatch by congruence. reflexivity.
Qed.

Lemma context_enriched_search_decomposed {E : Embedder} {S : ListSort}
    (query : string) (text_chunks : list string)
    (embeddings : list (list float)) (k context_size : Z) :
  context_enriched_search query text_chunks embeddings k context_size
  = (top <- best_match query embeddings ;;
     context_window text_chunks top context_size).
Proof.
  unfold context_enriched_search, best_match, context_window.
  destruct (mapM _ (enumerate embeddings)) as [scores|e]; [|reflexivity].
  cbn [bind].
  destruct (getitem (sort_by_key_desc snd scores) 0) as [best|e]; reflexivity.
Qed.

Lemma best_match_defined {E : Embedder} {S : ListSort} (query : string)
    (embeddings : list (list float)) :
  Py.permutes S ->
  embeddings <> [] ->
  Forall (fun e => List.length e = List.length (get_embedding query)) embeddings ->
  exists top : nat,
    best_match query embeddings = Ok top /\ (top < List.length embeddings)%nat.
Proof.
  intros Hperm Hne Hdim. unfold best_match.
  rewrite (similarity_scores_defined (get_embedding query) embeddings Hdim).
  cbn [bind].
  set (sims := map (cosine_value (get_embedding query)) embeddings).
  assert (sims <> []) as Hsne
    by (unfold sims; destruct embeddings; [congruence | discriminate]).
  destruct (sorted_scores_head sims Hperm Hsne) as [best [Hhead Hnth]].
  rewrite (getitem_head _ _ Hhead). cbn [bind].
  exists (fst best). split; [reflexivity|].
  assert (fst best < List.length sims)%nat as Hlt
    by (apply nth_error_Some; rewrite Hnth; discriminate).
  unfold sims in Hlt. rewrite length_map in Hlt. exact Hlt.
Qed.

Lemma context_window_defined (text_chunks : list string) (top : nat)
    (context_size : Z) :
  context_window text_chunks top context_size
  = Ok (map (fun i => nth (Z.to_nat i) text_chunks ""%string)
            (interval (Z.max 0 (Z.of_nat top - context_size))
                      (Z.min (Z.of_nat (List.length text_chunks) - 1)
                             (Z.of_nat top + context_size)))).
Proof.
  unfold context_window. rewrite range2_interval.
  replace (Z.min (Z.of_nat (List.length text_chunks))
             (Z.of_nat top + context_size + 1) - 1)%Z
    with (Z.min (Z.of_nat (List.length text_chunks) - 1)
            (Z.of_nat top + context_size))%Z by lia.
  apply mapM_total. intros i Hi. apply getitem_in_range.
  apply interval_bounds in Hi. lia.
Qed.

(** X8.  Errors of the context-enriched search, whatever the chunks, [k]
    and the context size, with a [list.sort] that rearranges its list:
    without embeddings it raises [IndexError] (the ranking has no first
    element); with an embedding whose dimension differs from the query's
    it raises [ValueError]; with at least one embedding, all of the
    query's dimension, it returns, also when the number of chunks is not
    the number of embeddings. *)
Theorem context_enriched_search_errors {E : Embedder} {S : ListSort}
    (query : string) (text_chunks : list string)
    (embeddings : list (list float)) (k context_size : Z) :
  Py.permutes S ->
  (embeddings = [] ->
   context_enriched_search query text_chunks embeddings k context_size
   = Raise IndexError) /\
  (Exists (fun e => List.length e <> List.length (get_embedding query)) embeddings ->
   context_enriched_search query text_chunks embeddings k context_size
   = Raise ValueError) /\
  (embeddings <> [] ->
   Forall (fun e => List.length e = List.length (get_embedding query)) embeddings ->
   exists chunks : list string,
     context_enriched_search query text_chunks embeddings k context_size
     = Ok chunks).
Proof.
  intros Hperm. split; [|split].
  - intros ->. unfold context_enriched_search. simpl mapM. cbn [bind].
    rewrite (sorted_scores_empty Hperm). reflexivity.
  - intros H. unfold context_enriched_search.
    rewrite (similarity_scores_mismatch (get_embedding query) embeddings H).
    reflexivity.
  - intros Hne Hdim. rewrite context_enriched_search_decomposed.
    destruct (best_match_defined query embeddings Hperm Hne Hdim) as [top [Ht _]].
    rewrite Ht. cbn [bind]. rewrite context_window_defined.
    eexists. reflexivity.
Qed.

(** The theorem with the interpreter's sort, on no embedding at all and
    on three embeddings for two chunks. *)
Lemma context_enriched_search_errors_witness :
  Py.permutes CPython.list_sorter /\
  context_enriched_search (embedder := Reference.embedder)
    (list_sorter := CPython.list_sorter) "q" ["a"; "b"]%string [] 1 1
  = Raise IndexError /\
  exists chunks : list string,
    context_enriched_search (embedder := Reference.embedder)
      (list_sorter := CPython.list_sorter) "q" ["a"; "b"]%string
      [[1; 1]; [0; 0]; [1; 0]]%float 1 1
    = Ok chunks.
Proof.
  split; [exact cpython_list_sorter_permutes|].
  destruct (context_enriched_search_errors (E := Reference.embedder)
              (S := CPython.list_sorter) "q" ["a"; "b"]%string [] 1 1
              cpython_list_sorter_permutes) as [H1 _].
  split; [apply H1; reflexivity|].
  destruct (context_enriched_search_errors (E := Reference.embedder)
              (S := CPython.list_sorter) "q" ["a"; "b"]%string
              [[1; 1]; [0; 0]; [1; 0]]%float 1 1
              cpython_list_sorter_permutes) as [_ [_ H3]].
  apply H3; [discriminate | repeat constructor].
Defined.

Lemma interval_length (lo hi : Z) :
  Z.of_nat (List.length (interval lo hi)) = Z.max 0 (hi - lo + 1).
Proof. unfold interval. rewrite length_map, length_seq. lia. Qed.

Lemma interval_nth (lo hi : Z) (d : nat) :
  (Z.of_nat d <= hi - lo)%Z ->
  nth_error (interval lo hi) d = Some (lo + Z.of_nat d)%Z.
Proof.
  intros H. unfold interval. rewrite nth_error_map, nth_error_seq.
  replace (d <? Z.to_nat (hi - lo + 1))%nat with true
    by (symmetry; apply Nat.ltb_lt; lia).
  reflexivity.
Qed.

(** X9.  Over as many chunks as embeddings (at least one, of the query's
    dimension), with a [list.sort] that rearranges its list: with a
    context size [c >= 0] the search returns between 1 and [2c + 1]
    chunks and the best match is among them, at offset [min(top, c)];
    with a negative context size it returns no chunk at all, not even
    the best match. *)
Theorem context_enriched_search_keeps_best_match {E : Embedder} {S : ListSort}
    (query : string) (text_chunks : list string)
    (embeddings : list (list float)) (k context_size : Z) :
  Py.permutes S ->
  embeddings <> [] ->
  List.length embeddings = List.length text_chunks ->
  Forall (fun e => List.length e = List.length (get_embedding query)) embeddings ->
  exists (top : nat) (chunks : list string),
    best_match query embeddings = Ok top /\
    context_enriched_search query text_chunks embeddings k context_size
      = Ok chunks /\
    ((0 <= context_size)%Z ->
       (1 <= Z.of_nat (List.length chunks) <= 2 * context_size + 1)%Z /\
       nth_error chunks (Nat.min top (Z.to_nat context_size))
         = nth_error text_chunks top /\
       nth_error text_chunks top <> None) /\
    ((context_size < 0)%Z -> chunks = []).
Proof.
  intros Hperm Hne Hlen Hdim.
  destruct (best_match_defined query embeddings Hperm Hne Hdim) as [top [Ht Hlt]].
  rewrite Hlen in Hlt.
  exists top. eexists. split; [exact Ht|].
  split.
  { rewrite context_enriched_search_decomposed, Ht. cbn [bind].
    apply context_window_defined. }
  set (N := Z.of_nat (List.length text_chunks)).
  set (lo := Z.max 0 (Z.of_nat top - context_size)).
  set (hi := Z.min (N - 1) (Z.of_nat top + context_size)).
  split.
  - intros Hc. split; [|split].
    + rewrite length_map. pose proof (interval_length lo hi). unfold lo, hi, N in *. lia.
    + rewrite nth_error_map.
      rewrite (interval_nth lo hi) by (unfold lo, hi, N; lia).
      simpl. replace (Z.to_nat (lo + Z.of_nat (Nat.min top (Z.to_nat context_size)))) with top
        by (unfold lo; lia).
      symmetry. apply nth_error_nth'. lia.
    + apply nth_error_Some. exact Hlt.
  - intros Hc. pose proof (interval_length lo hi) as Hl.
    assert (List.length (interval lo hi) = 0)%nat as H0 by (unfold lo, hi, N in *; lia).
    apply length_zero_iff_nil in H0. rewrite H0. reflexivity.
Qed.

(** The theorem at a concrete input, with the interpreter's sort. *)
Lemma context_enriched_search_keeps_best_match_witness :
  Py.permutes CPython.list_sorter /\
  exists (top : nat) (chunks : list string),
    best_match (embedder := Reference.embedder) (list_sorter := CPython.list_sorter)
      "q" [[0; 1]; [0; 1]; [1; 0]; [1; 1]]%float = Ok top /\
    context_enriched_search (embedder := Reference.embedder)
      (list_sorter := CPython.list_sorter) "q"
      ["a"; "b"; "c"; "d"]%string [[0; 1]; [0; 1]; [1; 0]; [1; 1]]%float 1 1
    = Ok chunks /\
    (1 <= Z.of_nat (List.length chunks) <= 2 * 1 + 1)%Z.
Proof.
  split; [exact cpython_list_sorter_permutes|].
  destruct (context_enriched_search_keeps_best_match (E := Reference.embedder)
              (S := CPython.list_sorter) "q"
              ["a"; "b"; "c"; "d"]%string
              [[0; 1]; [0; 1]; [1; 0]; [1; 1]]%float 1 1)
    as [top [chunks [H1 [H2 [H3 _]]]]].
  - exact cpython_list_sorter_permutes.
  - discriminate.
  - reflexivity.
  - repeat constructor.
  - exists top, chunks. split; [exact H1|]. split; [exact H2|].
    apply H3. lia.
Defined.

(* ================================================================== *)
(** * Further properties: plain top-k retrieval *)
(* ================================================================== *)

Lemma slice_tail {A : Type} (l : list A) (k : Z) :
  slice l (Some (- k)%Z) None = skipn (dropped (List.length l) k) l.
Proof.
  unfold slice, adjust_index, dropped.
  destruct (1 <=? k)%Z eqn:Hk.
  - apply Z.leb_le in Hk.
    replace (- k <? 0)%Z with true by (symmetry; apply Z.ltb_lt; lia).
    replace (Z.to_nat (Z.max 0 (- k + Z.of_nat (List.length l))))
      with (List.length l - Z.to_nat k)%nat by lia.
    apply firstn_all2. rewrite length_skipn. lia.
  - apply Z.leb_gt in Hk.
    replace (- k <? 0)%Z with false by (symmetry; apply Z.ltb_ge; lia).
    replace (Z.to_nat (Z.min (- k) (Z.of_nat (List.length l))))
      with (Nat.min (Z.to_nat (- k)) (List.length l)) by lia.
    apply firstn_all2. rewrite length_skipn. lia.
Qed.

Section Ranking.

Context {S : Np.Argsort}.

Lemma ranking_grows (similarities : list float) (k k' : Z) :
  (1 <= k <= k')%Z ->
  exists more : list nat,
    ranking similarities k' = ranking similarities k ++ more.
Proof.
  intros Hk. unfold ranking, dropped.
  replace (1 <=? k)%Z with true by (symmetry; apply Z.leb_le; lia).
  replace (1 <=? k')%Z with true by (symmetry; apply Z.leb_le; lia).
  set (n := List.length similarities).
  set (l := Np.argsort similarities).
  set (m := (n - Z.to_nat k)%nat). set (m' := (n - Z.to_nat k')%nat).
  assert (m' <= m)%nat as Hm by (unfold m, m'; lia).
  exists (rev (firstn (m - m') (skipn m' l))).
  rewrite <- rev_app_distr. f_equal.
  rewrite <- (firstn_skipn (m - m') (skipn m' l)) at 1.
  f_equal. rewrite skipn_skipn. f_equal. lia.
Qed.

Hypothesis argsort_permutes : Np.permutes S.

Lemma argsort_length (a : list float) :
  List.length (Np.argsort a) = List.length a.
Proof.
  rewrite (Permutation_length (argsort_permutes a)). apply length_seq.
Qed.

Lemma argsort_in_range (a : list float) (i : nat) :
  In i (Np.argsort a) <-> (i < List.length a)%nat.
Proof.
  split; intros H.
  - apply (Permutation_in _ (argsort_permutes a)) in H. apply in_seq in H. lia.
  - apply (Permutation_in _ (Permutation_sym (argsort_permutes a))). apply in_seq. lia.
Qed.

Lemma semantic_search_ranking {E : Embedder}
    (query : string) (text_chunks : list string)
    (chunk_embeddings : list (list float)) (k : Z) :
  Forall (fun e => List.length e = List.length (get_embedding query))
         chunk_embeddings ->
  semantic_search query text_chunks chunk_embeddings k
  = mapM (fun i => getitem text_chunks (Z.of_nat i))
         (ranking (map (cosine_value (get_embedding query)) chunk_embeddings) k).
Proof.
  intros Hdim. unfold semantic_search.
  rewrite (similarities_defined (get_embedding query) chunk_embeddings Hdim).
  cbn [bind]. rewrite slice_tail, argsort_length. reflexivity.
Qed.

Lemma ranking_in_range (similarities : list float) (k : Z) (i : nat) :
  In i (ranking similarities k) -> (i < List.length similarities)%nat.
Proof.
  unfold ranking. intros H. apply in_rev in H.
  apply argsort_in_range.
  rewrite <- (firstn_skipn (dropped (List.length similarities) k)).
  apply in_or_app. right. exact H.
Qed.

Lemma ranking_length (similarities : list float) (k : Z) :
  Z.of_nat (List.length (ranking similarities k))
  = if (1 <=? k)%Z then Z.min k (Z.of_nat (List.length similarities))
    else Z.max 0 (Z.of_nat (List.length similarities) + k).
Proof.
  unfold ranking, dropped. rewrite length_rev, length_skipn, argsort_length.
  destruct (1 <=? k)%Z eqn:Hk; [apply Z.leb_le in Hk | apply Z.leb_gt in Hk]; lia.
Qed.

End Ranking.

Lemma chunks_at_positions (text_chunks : list string) (positions : list nat) :
  (forall i, In i positions -> (i < List.length text_chunks)%nat) ->
  mapM (fun i => getitem text_chunks (Z.of_nat i)) positions
  = Ok (map (fun i => nth i text_chunks ""%string) positions).
Proof.
  intros H. apply mapM_total. intros i Hi.
  rewrite (getitem_in_range text_chunks (Z.of_nat i) ""%string)
    by (specialize (H i Hi); lia).
  rewrite Nat2Z.id. reflexivity.
Qed.

(** X5.  With embeddings of the query's dimension, and no more of them
    than chunks, both plain retrievers return for every [k]: [min(k, N)]
    chunks for [k >= 1], all [N] chunks for [k = 0], and [N - |k|] chunks
    (none when [|k| >= N]) for a negative [k].  Of [np.argsort] this needs
    only that it returns every position once. *)
Theorem semantic_search_result_size {E : Embedder} {S : Np.Argsort}
    (query : string) (text_chunks : list string)
    (chunk_embeddings : list (list float)) (k : Z) :
  Np.permutes S ->
  (List.length chunk_embeddings <= List.length text_chunks)%nat ->
  Forall (fun e => List.length e = List.length (get_embedding query))
         chunk_embeddings ->
  exists chunks : list string,
    semantic_search query text_chunks chunk_embeddings k = Ok chunks /\
    retrieve_relevant_chunks query text_chunks chunk_embeddings k = Ok chunks /\
    Z.of_nat (List.length chunks)
    = if (1 <=? k)%Z then Z.min k (Z.of_nat (List.length chunk_embeddings))
      else Z.max 0 (Z.of_nat (List.length chunk_embeddings) + k).
Proof.
  intros Hperm Hlen Hdim.
  set (sims := map (cosine_value (get_embedding query)) chunk_embeddings).
  assert (List.length sims = List.length chunk_embeddings) as Hsl
    by (unfold sims; apply length_map).
  assert (semantic_search query text_chunks chunk_embeddings k
          = Ok (map (fun i => nth i text_chunks ""%string) (ranking sims k))) as Hrun.
  { rewrite (semantic_search_ranking Hperm) by exact Hdim. fold sims.
    apply chunks_at_positions. intros i Hi.
    apply (ranking_in_range Hperm) in Hi. lia. }
  eexists. split; [exact Hrun|].
  split; [rewrite retrieve_relevant_chunks_semantic_search; exact Hrun|].
  rewrite length_map, (ranking_length Hperm), Hsl. reflexivity.
Qed.

(** The theorem at a concrete input. *)
Lemma semantic_search_result_size_witness :
  Np.permutes Reference.ties_reversed /\
  exists chunks : list string,
    semantic_search (embedder := Reference.embedder)
      (sorter := Reference.ties_reversed) "q"
      ["a"; "b"; "c"]%string [[1; 0]; [0; 1]; [1; 1]]%float (-1) = Ok chunks /\
    Z.of_nat (List.length chunks) = 2%Z.
Proof.
  split; [exact (proj1 ties_reversed_sorts)|].
  destruct (semantic_search_result_size (E := Reference.embedder)
              (S := Reference.ties_reversed) "q"
              ["a"; "b"; "c"]%string [[1; 0]; [0; 1]; [1; 1]]%float (-1))
    as [chunks [H1 [_ H3]]].
  - exact (proj1 ties_reversed_sorts).
  - simpl. lia.
  - repeat constructor.
  - exists chunks. split; [exact H1 | exact H3].
Defined.

(** Three chunks of distinct similarities 1, 0 and 0.707...: *)
Example semantic_search_nonpositive_k :
  semantic_search (embedder := Reference.embedder) (sorter := Reference.sorter) "q"
    ["a"; "b"; "c"]%string [[1; 0]; [0; 1]; [1; 1]]%float 0
  = Ok ["a"; "c"; "b"]%string /\
  semantic_search (embedder := Reference.embedder) (sorter := Reference.sorter) "q"
    ["a"; "b"; "c"]%string [[1; 0]; [0; 1]; [1; 1]]%float (-1)
  = Ok ["a"; "c"]%string /\
  semantic_search (embedder := Reference.embedder) (sorter := Reference.sorter) "q"
    ["a"; "b"; "c"]%string [[1; 0]; [0; 1]; [1; 1]]%float (-5)
  = Ok [].
Proof. repeat split; vm_compute; reflexivity. Qed.

(** X6.  For [1 <= k <= k'] the chunks returned for [k] are the first of
    the chunks returned for [k']: a larger [k] only appends.  The order
    [np.argsort] gives to equal values plays no part. *)
Theorem semantic_search_grows_with_k {E : Embedder} {S : Np.Argsort}
    (query : string) (text_chunks : list string)
    (chunk_embeddings : list (list float)) (k k' : Z) :
  Np.permutes S ->
  (1 <= k <= k')%Z ->
  (List.length chunk_embeddings <= List.length text_chunks)%nat ->
  Forall (fun e => List.length e = List.length (get_embedding query))
         chunk_embeddings ->
  exists chunks more : list string,
    semantic_search query text_chunks chunk_embeddings k = Ok chunks /\
    semantic_search query text_chunks chunk_embeddings k' = Ok (chunks ++ more).
Proof.
  intros Hperm Hk Hlen Hdim.
  set (sims := map (cosine_value (get_embedding query)) chunk_embeddings).
  assert (List.length sims = List.length chunk_embeddings) as Hsl
    by (unfold sims; apply length_map).
  destruct (ranking_grows sims k k' Hk) as [more Hmore].
  exists (map (fun i => nth i text_chunks ""%string) (ranking sims k)),
         (map (fun i => nth i text_chunks ""%string) more).
  split.
  - rewrite (semantic_search_ranking Hperm) by exact Hdim. fold sims.
    apply chunks_at_positions. intros i Hi. apply (ranking_in_range Hperm) in Hi. lia.
  - rewrite (semantic_search_ranking Hperm) by exact Hdim. fold sims.
    rewrite <- map_app, <- Hmore.
    apply chunks_at_positions. intros i Hi. apply (ranking_in_range Hperm) in Hi. lia.
Qed.

(** The theorem at a concrete input. *)
Lemma semantic_search_grows_with_k_witness :
  Np.permutes Reference.ties_reversed /\
  exists chunks more : list string,
    semantic_search (embedder := Reference.embedder)
      (sorter := Reference.ties_reversed) "q"
      ["a"; "b"; "c"]%string [[1; 0]; [0; 1]; [1; 1]]%float 1 = Ok chunks /\
    semantic_search (embedder := Reference.embedder)
      (sorter := Reference.ties_reversed) "q"
      ["a"; "b"; "c"]%string [[1; 0]; [0; 1]; [1; 1]]%float 2 = Ok (chunks ++ more).
Proof.
  split; [exact (proj1 ties_reversed_sorts)|].
  apply (semantic_search_grows_with_k (E := Reference.embedder)
           (S := Reference.ties_reversed) "q"
           ["a"; "b"; "c"]%string [[1; 0]; [0; 1]; [1; 1]]%float 1 2).
  - exact (proj1 ties_reversed_sorts).
  - lia.
  - simpl. lia.
  - repeat constructor.
Defined.

(** X7.  Errors of the plain retrievers, with an [np.argsort] that
    returns every position once: an embedding whose dimension differs
    from the query's raises [ValueError], whatever [k]; without
    embeddings the result is the empty list; and with fewer chunks than
    embeddings, a [k] that asks for all of them raises [IndexError]. *)
Theorem semantic_search_errors {E : Embedder} {S : Np.Argsort}
    (query : string) (text_chunks : list string)
    (chunk_embeddings : list (list float)) (k : Z) :
  Np.permutes S ->
  (Exists (fun e => List.length e <> List.length (get_embedding query))
          chunk_embeddings ->
   semantic_search query text_chunks chunk_embeddings k = Raise ValueError /\
   retrieve_relevant_chunks query text_chunks chunk_embeddings k = Raise ValueError) /\
  (chunk_embeddings = [] ->
   semantic_search query text_chunks chunk_embeddings k = Ok []) /\
  (Forall (fun e => List.length e = List.length (get_embedding query))
          chunk_embeddings ->
   (List.length text_chunks < List.length chunk_embeddings)%nat ->
   (Z.of_nat (List.length chunk_embeddings) <= k)%Z ->
   semantic_search query text_chunks chunk_embeddings k = Raise IndexError).
Proof.
  intros Hperm. split; [|split].
  - intros H.
    assert (semantic_search query text_chunks chunk_embeddings k = Raise ValueError)
      as Hrun.
    { unfold semantic_search.
      rewrite (similarities_mismatch (get_embedding query) chunk_embeddings H).
      reflexivity. }
    split; [exact Hrun|].
    rewrite retrieve_relevant_chunks_semantic_search. exact Hrun.
  - intros ->. unfold semantic_search. simpl mapM. cbn [bind].
    assert (Np.argsort [] = []) as ->
      by (apply Permutation_nil; symmetry; apply (Hperm [])).
    rewrite slice_tail. simpl. destruct (dropped 0 k); reflexivity.
  - intros Hdim Hlen Hk. rewrite (semantic_search_ranking Hperm) by exact Hdim.
    set (sims := map (cosine_value (get_embedding query)) chunk_embeddings).
    assert (List.length sims = List.length chunk_embeddings) as Hsl
      by (unfold sims; apply length_map).
    apply mapM_raise.
    + intros i _. unfold getitem.
      replace (Z.of_nat i <? 0)%Z with false by (symmetry; apply Z.ltb_ge; lia).
      destruct ((0 <=? Z.of_nat i)%Z && (Z.of_nat i <? Z.of_nat (List.length text_chunks))%Z);
        [|right; reflexivity].
      destruct (nth_error text_chunks (Z.to_nat (Z.of_nat i)));
        [left; eexists; reflexivity | right; reflexivity].
    + apply Exists_exists. exists (List.length text_chunks). split.
      * unfold ranking, dropped.
        replace (1 <=? k)%Z with true by (symmetry; apply Z.leb_le; lia).
        replace (List.length sims - Z.to_nat k)%nat with 0%nat by lia.
        rewrite skipn_0. apply -> in_rev. apply (argsort_in_range Hperm). lia.
      * unfold getitem.
        replace (Z.of_nat (List.length text_chunks) <? 0)%Z with false
          by (symmetry; apply Z.ltb_ge; lia).
        rewrite Z.ltb_irrefl, andb_false_r. reflexivity.
Qed.

(** The theorem on three embeddings for two chunks, all asked for. *)
Lemma semantic_search_errors_witness :
  Np.permutes Reference.ties_reversed /\
  semantic_search (embedder := Reference.embedder)
    (sorter := Reference.ties_reversed) "q"
    ["a"; "b"]%string [[1; 0]; [0; 1]; [1; 1]]%float 3 = Raise IndexError.
Proof.
  split; [exact (proj1 ties_reversed_sorts)|].
  destruct (semantic_search_errors (E := Reference.embedder)
              (S := Reference.ties_reversed) "q"
              ["a"; "b"]%string [[1; 0]; [0; 1]; [1; 1]]%float 3
              (proj1 ties_reversed_sorts)) as [_ [_ H3]].
  apply H3; [repeat constructor | simpl; lia | simpl; lia].
Defined.

(* ================================================================== *)
(** * Further properties: from the text to the semantic chunks *)
(* ================================================================== *)

Example str_split_examples :
  str_split "a. b. c" ". " = Ok ["a"; "b"; "c"]%string /\
  str_split "a.. b. " ". " = Ok ["a."; "b"; ""]%string /\
  str_split "" ". " = Ok [""%string] /\
  str_split "aaa" "aa" = Ok [""; "a"]%string /\
  str_split "abc" "" = Raise ValueError.
Proof. repeat split; reflexivity. Qed.

Lemma prefix_split (a b : string) :
  prefix a b = true -> exists r, b = (a ++ r)%string.
Proof.
  revert b. induction a as [|x a IH]; intros b H.
  - exists b. reflexivity.
  - destruct b as [|y b]; [discriminate|]. simpl in H.
    destruct (ascii_dec x y) as [->|]; [|discriminate].
    destruct (IH b H) as [r ->]. exists r. reflexivity.
Qed.

Lemma split_scan_nonempty (sep s : string) (skip : nat) (cur : string) :
  split_scan sep s skip cur <> [].
Proof.
  revert skip cur. induction s as [|c t IH]; intros skip cur; cbn [split_scan];
    [discriminate|].
  destruct skip; [|apply IH].
  destruct (prefix sep (String c t)); [discriminate | apply IH].
Qed.

Lemma split_scan_skip (sep p s : string) (cur : string) :
  split_scan sep (p ++ s) (String.length p) cur = split_scan sep s 0 cur.
Proof.
  induction p as [|c p IH]; [reflexivity|]. exact IH.
Qed.

Lemma join_split_scan (sep : string) (n : nat) :
  sep <> EmptyString ->
  forall s cur : string,
    (String.length s <= n)%nat ->
    join sep (split_scan sep s 0 cur) = (cur ++ s)%string.
Proof.
  intros Hsep. induction n as [|n IH]; intros s cur Hn.
  - destruct s; [simpl; rewrite append_empty_r; reflexivity | simpl in Hn; lia].
  - destruct s as [|c t]; [simpl; rewrite append_empty_r; reflexivity|].
    cbn [split_scan]. destruct (prefix sep (String c t)) eqn:Hp.
    + destruct (prefix_split _ _ Hp) as [r Hr].
      destruct sep as [|x sep']; [congruence|].
      simpl in Hr. injection Hr as <- ->.
      replace (String.length (String c sep') - 1)%nat with (String.length sep')
        by (simpl; lia).
      rewrite split_scan_skip.
      rewrite join_cons by apply split_scan_nonempty.
      rewrite IH.
      * reflexivity.
      * simpl in Hn. rewrite append_length in Hn. lia.
    + rewrite IH by (simpl in Hn; lia).
      rewrite append_assoc. reflexivity.
Qed.

(** Joining the pieces of a split with the separator gives the string
    back. *)
Lemma join_str_split (s sep : string) (pieces : list string) :
  str_split s sep = Ok pieces -> join sep pieces = s /\ pieces <> [].
Proof.
  unfold str_split. destruct sep as [|x sep'] eqn:E; [discriminate|].
  intros H. injection H as <-. split; [|apply split_scan_nonempty].
  apply (join_split_scan (String x sep') (String.length s)); [discriminate | lia].
Qed.

Lemma mapM_length {A B : Type} (f : A -> result B) (l : list A) (r : list B) :
  mapM f l = Ok r -> List.length r = List.length l.
Proof.
  revert r. induction l as [|x t IH]; intros r H; simpl in H.
  - injection H as <-. reflexivity.
  - destruct (f x); [|discriminate]. destruct (mapM f t); [|discriminate].
    injection H as <-. simpl. f_equal. apply IH. reflexivity.
Qed.

Lemma mapM_nth {A B : Type} (f : A -> result B) (l : list A) (r : list B)
    (i : nat) (x : A) :
  mapM f l = Ok r -> nth_error l i = Some x ->
  exists y, f x = Ok y /\ nth_error r i = Some y.
Proof.
  revert r i. induction l as [|a t IH]; intros r i H Hi; [destruct i; discriminate|].
  simpl in H. destruct (f a) as [b|] eqn:Ea; [|discriminate].
  destruct (mapM f t) as [bs|] eqn:Et; [|discriminate].
  injection H as <-. destruct i as [|i]; simpl in Hi.
  - injection Hi as <-. exists b. split; [exact Ea | reflexivity].
  - apply (IH bs i eq_refl Hi).
Qed.

Lemma range2_length (n : Z) :
  List.length (range2 0 n) = Z.to_nat n.
Proof.
  rewrite range2_interval. apply Nat2Z.inj. rewrite interval_length. lia.
Qed.

Section Cells.

Context {stats : Np.Stats} {embedder : Embedder}.

Lemma consecutive_similarities_length (embeddings : list (list float))
    (similarities : list float) :
  consecutive_similarities embeddings = Ok similarities ->
  List.length similarities = (List.length embeddings - 1)%nat.
Proof.
  intros H. apply mapM_length in H. rewrite H, range2_length. lia.
Qed.

(** X10.  The similarity series of [N] embeddings of one dimension has
    [N - 1] values (none for [N <= 1]), and its value at [i] is the cosine
    similarity of the embeddings [i] and [i + 1]; it does not raise. *)
Theorem consecutive_similarities_series (embeddings : list (list float)) :
  (forall a b, In a embeddings -> In b embeddings -> List.length a = List.length b) ->
  exists similarities : list float,
    consecutive_similarities embeddings = Ok similarities /\
    List.length similarities = (List.length embeddings - 1)%nat /\
    forall (i : nat) (a b : list float),
      nth_error embeddings i = Some a ->
      nth_error embeddings (S i) = Some b ->
      nth_error similarities i = Some (cosine_value a b).
Proof.
  intros Hdim.
  set (f := fun i : Z =>
              cosine_value (nth (Z.to_nat i) embeddings [])
                           (nth (Z.to_nat (i + 1)) embeddings [])).
  assert (consecutive_similarities embeddings
          = Ok (map f (range2 0 (Z.of_nat (List.length embeddings) - 1)))) as Hrun.
  { unfold consecutive_similarities. apply mapM_total. intros i Hi.
    rewrite range2_interval in Hi. apply interval_bounds in Hi.
    rewrite (getitem_in_range embeddings i []) by lia.
    rewrite (getitem_in_range embeddings (i + 1)%Z []) by lia.
    cbn [bind]. apply cosine_similarity_defined.
    apply Hdim; apply nth_In; lia. }
  eexists. split; [exact Hrun|].
  split; [rewrite length_map, range2_length; lia|].
  intros i a b Ha Hb.
  assert (S i < List.length embeddings)%nat as Hlt
    by (apply nth_error_Some; rewrite Hb; discriminate).
  rewrite nth_error_map, range2_interval, (interval_nth 0) by lia.
  simpl. unfold f. f_equal. f_equal.
  - replace (Z.to_nat (Z.of_nat i)) with i by lia.
    apply nth_error_nth. exact Ha.
  - replace (Z.to_nat (Z.of_nat i + 1)) with (S i) by lia.
    apply nth_error_nth. exact Hb.
Qed.

Lemma compute_breakpoints_positions (similarities : list float) (method : string)
    (threshold : float) (bps : list nat) :
  compute_breakpoints similarities method threshold = Ok bps ->
  StronglySorted Nat.lt bps /\
  Forall (fun i => (i < List.length similarities)%nat) bps.
Proof.
  unfold compute_breakpoints. intros H.
  match type of H with
  | bind ?m _ = _ => destruct m as [cutoff|e]; [|discriminate]
  end.
  simpl in H. injection H as <-.
  destruct (filter_positions (fun p => (snd p <? cutoff)%float) similarities 0)
    as [Hs Hr].
  split; [exact Hs|].
  eapply Forall_impl; [|exact Hr]. simpl. intros; lia.
Qed.

Lemma breakpoint_set_of_positions (n : nat) (bps : list nat) :
  StronglySorted Nat.lt bps ->
  Forall (fun i => (i < n - 1)%nat) bps ->
  breakpoint_set n (map Z.of_nat bps).
Proof.
  intros Hs Hr. split.
  - apply (StronglySorted_map_in Nat.lt); [|exact Hs]. intros; lia.
  - apply Forall_map. eapply Forall_impl; [|exact Hr]. simpl. intros; lia.
Qed.

End Cells.

(** The theorem at a concrete input. *)
Lemma consecutive_similarities_series_witness :
  exists similarities : list float,
    consecutive_similarities [[1; 0]; [1; 0]; [0; 1]]%float = Ok similarities /\
    List.length similarities = 2%nat.
Proof.
  destruct (consecutive_similarities_series [[1; 0]; [1; 0]; [0; 1]]%float)
    as [sims [H1 [H2 _]]].
  - intros a b Ha Hb. simpl in Ha, Hb.
    repeat (destruct Ha as [<-|Ha]; [repeat (destruct Hb as [<-|Hb]; [reflexivity|]); destruct Hb|]).
    destruct Ha.
  - exists sims. split; [exact H1 | exact H2].
Defined.


Lemma unit_groups_all_nonempty (sentences : list string) (bps : list Z) :
  forall start : Z,
    (0 <= start)%Z ->
    StronglySorted Z.lt bps ->
    Forall (fun b => (start <= b < Z.of_nat (List.length sentences) - 1)%Z) bps ->
    (start < Z.of_nat (List.length sentences))%Z ->
    Forall (fun g => g <> []) (unit_groups sentences start bps).
Proof.
  induction bps as [|bp rest IH]; intros start Hstart Hs Hr Hlt; simpl.
  - constructor; [|constructor].
    rewrite slice_from by lia. intros H.
    apply (f_equal (@List.length string)) in H.
    rewrite length_skipn in H. simpl in H. lia.
  - apply StronglySorted_inv in Hs. destruct Hs as [Hs Hall].
    inversion Hr as [|? ? Hbp Hrest]; subst.
    constructor.
    + rewrite slice_between by lia. unfold units_between. intros H.
      apply (f_equal (@List.length string)) in H.
      rewrite length_firstn, length_skipn in H. simpl in H. lia.
    + apply IH; [lia | exact Hs | | lia].
      rewrite Forall_forall in *. intros x Hx.
      specialize (Hall x Hx). specialize (Hrest x Hx). lia.
Qed.

Lemma concat_nonempty {A : Type} (groups : list (list A)) :
  groups <> [] -> Forall (fun g => g <> []) groups -> List.concat groups <> [].
Proof.
  destruct groups as [|g gs]; [congruence|]. intros _ H.
  inversion H as [|? ? Hg _]; subst. simpl.
  destruct g; [congruence | discriminate].
Qed.

Lemma render_nonempty (groups : list (list string)) : render groups <> [].
Proof. unfold render. destruct (map _ (removelast groups)); discriminate. Qed.

Lemma join_render (groups : list (list string)) :
  groups <> [] -> Forall (fun g => g <> []) groups ->
  join " " (render groups) = join ". " (List.concat groups).
Proof.
  induction groups as [|g gs IH]; intros Hne Hall; [congruence|].
  inversion Hall as [|? ? Hg Hgs]; subst.
  destruct gs as [|g' gs'].
  - unfold render. simpl. rewrite app_nil_r. reflexivity.
  - rewrite render_cons by discriminate.
    rewrite join_cons by apply render_nonempty.
    rewrite IH by (try discriminate; exact Hgs).
    change (List.concat (g :: g' :: gs')) with (g ++ List.concat (g' :: gs')).
    rewrite (join_app ". " g (List.concat (g' :: gs')));
      [| exact Hg | apply concat_nonempty; [discriminate | exact Hgs]].
    rewrite !append_assoc. reflexivity.
Qed.

Section Pipeline.

Context {stats : Np.Stats} {embedder : Embedder}.

Lemma detector_groups (sentences : list string)
    (similarities : list float) (method : string) (threshold : float)
    (bps : list nat) :
  sentences <> [] ->
  List.length similarities = (List.length sentences - 1)%nat ->
  compute_breakpoints similarities method threshold = Ok bps ->
  exists groups : list (list string),
    split_into_chunks sentences (map Z.of_nat bps) = render groups /\
    List.length groups = S (List.length bps) /\
    List.concat groups = sentences /\
    Forall (fun g => g <> []) groups.
Proof.
  intros Hne Hlen Hrun.
  destruct (compute_breakpoints_positions _ _ _ _ Hrun) as [Hs Hr].
  rewrite Hlen in Hr.
  destruct (breakpoint_set_of_positions (List.length sentences) bps Hs Hr)
    as [Hzs Hzr].
  assert (0 < List.length sentences)%nat as Hpos
    by (destruct sentences; [congruence | simpl; lia]).
  exists (unit_groups sentences 0 (map Z.of_nat bps)).
  split; [apply split_into_chunks_render|].
  split; [rewrite unit_groups_length, length_map; reflexivity|].
  split.
  - rewrite unit_groups_concat; [reflexivity | lia | exact Hzs |].
    eapply Forall_impl; [|exact Hzr]. simpl. intros; lia.
  - apply unit_groups_all_nonempty; [lia | exact Hzs | | lia].
    eapply Forall_impl; [|exact Hzr]. simpl. intros; lia.
Qed.

(** X11.  The breakpoints the detector returns on the series of the
    [N - 1] similarities of [N >= 1] sentences, whatever the method and
    threshold, split the sentences into [length bps + 1] groups that put
    end to end are the sentences, and none of which is empty. *)
Theorem detector_breakpoints_partition (sentences : list string)
    (similarities : list float) (method : string) (threshold : float)
    (bps : list nat) :
  sentences <> [] ->
  List.length similarities = (List.length sentences - 1)%nat ->
  compute_breakpoints similarities method threshold = Ok bps ->
  exists groups : list (list string),
    split_into_chunks sentences (map Z.of_nat bps) = render groups /\
    List.length groups = S (List.length bps) /\
    List.concat groups = sentences /\
    Forall (fun g => g <> []) groups.
Proof. apply detector_groups. Qed.

(** X12.  Whenever the cells from the sentence split to the chunks return
    chunks, the chunks joined by single blanks are the extracted text, and
    there is at least one chunk. *)
Theorem semantic_chunks_give_back_text (extracted_text : string)
    (chunks : list string) :
  semantic_chunks extracted_text = Ok chunks ->
  join " " chunks = extracted_text /\ chunks <> [].
Proof.
  unfold semantic_chunks. intros H.
  destruct (str_split extracted_text ". ") as [sentences|] eqn:Hsplit;
    [|discriminate].
  cbn [bind] in H.
  destruct (consecutive_similarities (sentence_embeddings sentences))
    as [sims|] eqn:Hsims; [|discriminate].
  cbn [bind] in H.
  destruct (compute_breakpoints sims "percentile" 90%float) as [bps|] eqn:Hbps;
    [|discriminate].
  cbn [bind] in H. injection H as <-.
  destruct (join_str_split _ _ _ Hsplit) as [Hjoin Hne].
  apply consecutive_similarities_length in Hsims.
  unfold sentence_embeddings in Hsims. rewrite length_map in Hsims.
  destruct (detector_groups sentences sims "percentile" 90%float bps
              Hne Hsims Hbps) as [groups [Hr [Hl [Hc Hg]]]].
  rewrite Hr. split; [|apply render_nonempty].
  rewrite join_render; [rewrite Hc; exact Hjoin | | exact Hg].
  destruct groups; [discriminate | discriminate].
Qed.

End Pipeline.

(** The theorem at a concrete input. *)
Lemma detector_breakpoints_partition_witness :
  exists groups : list (list string),
    split_into_chunks ["a"; "b"; "c"]%string (map Z.of_nat [1%nat]) = render groups /\
    List.concat groups = ["a"; "b"; "c"]%string /\
    Forall (fun g => g <> []) groups.
Proof.
  destruct (detector_breakpoints_partition (stats := Reference.stats)
              ["a"; "b"; "c"]%string [0.75; 0.25]%float "percentile" 50%float [1%nat])
    as [groups [H1 [_ [H3 H4]]]].
  - discriminate.
  - reflexivity.
  - vm_compute. reflexivity.
  - exists groups. split; [exact H1|]. split; [exact H3 | exact H4].
Defined.

(** The theorem at a concrete input. *)
Lemma semantic_chunks_give_back_text_witness :
  semantic_chunks (stats := Reference.stats) (embedder := Reference.embedder)
    "One two three. Four. Five six seven eight nine. Ten eleven. Twelve"
  = Ok ["One two three."; "Four."; "Five six seven eight nine. Ten eleven."; "Twelve"]%string /\
  join " " ["One two three."; "Four."; "Five six seven eight nine. Ten eleven."; "Twelve"]%string
  = "One two three. Four. Five six seven eight nine. Ten eleven. Twelve"%string.
Proof.
  assert (semantic_chunks (stats := Reference.stats) (embedder := Reference.embedder)
            "One two three. Four. Five six seven eight nine. Ten eleven. Twelve"
          = Ok ["One two three."; "Four."; "Five six seven eight nine. Ten eleven.";
                "Twelve"]%string) as Hrun by (vm_compute; reflexivity).
  split; [exact Hrun|].
  apply (semantic_chunks_give_back_text (stats := Reference.stats)
           (embedder := Reference.embedder) _ _ Hrun).
Defined.


Lemma render_length (groups : list (list string)) :
  groups <> [] -> List.length (render groups) = List.length groups.
Proof.
  induction groups as [|g gs IH]; intros H; [congruence|].
  destruct gs as [|g' gs']; [reflexivity|].
  rewrite render_cons by discriminate. simpl List.length. f_equal.
  apply IH. discriminate.
Qed.

(** X13.  For every list of breakpoints, well formed or not (unsorted,
    repeated, negative, beyond the end), the function returns exactly one
    chunk more than there are breakpoints: never an empty list. *)
Theorem split_into_chunks_count (sentences : list string) (breakpoints : list Z) :
  List.length (split_into_chunks sentences breakpoints)
  = S (List.length breakpoints).
Proof.
  rewrite split_into_chunks_render, render_length by apply unit_groups_nonempty.
  apply unit_groups_length.
Qed.

(* ================================================================== *)
(** * Further properties: breakpoint errors, evaluator output, extraction *)
(* ================================================================== *)

Section BreakpointErrors.

Context {stats : Np.Stats}.

(** X14.  Errors of the detector: a method name other than the three
    raises [ValueError]; an exception of [np.percentile] propagates
    unchanged from the percentile and the interquartile methods; the
    standard deviation method always returns. *)
Theorem compute_breakpoints_errors (similarities : list float) (method : string)
    (threshold : float) :
  (method <> "percentile"%string -> method <> "standard_deviation"%string ->
   method <> "interquartile"%string ->
   compute_breakpoints similarities method threshold = Raise ValueError) /\
  (forall e, Np.percentile similarities threshold = Raise e ->
     compute_breakpoints similarities "percentile" threshold = Raise e) /\
  (forall e, Np.percentile similarities 25%float = Raise e ->
     compute_breakpoints similarities "interquartile" threshold = Raise e) /\
  (forall q1 e, Np.percentile similarities 25%float = Ok q1 ->
     Np.percentile similarities 75%float = Raise e ->
     compute_breakpoints similarities "interquartile" threshold = Raise e) /\
  (exists bps, compute_breakpoints similarities "standard_deviation" threshold = Ok bps).
Proof.
  split; [|split; [|split; [|split]]].
  - intros H1 H2 H3. unfold compute_breakpoints.
    apply String.eqb_neq in H1, H2, H3. rewrite H1, H2, H3. reflexivity.
  - intros e H. unfold compute_breakpoints. simpl String.eqb. cbv iota.
    rewrite H. reflexivity.
  - intros e H. unfold compute_breakpoints. simpl String.eqb. cbv iota.
    rewrite H. reflexivity.
  - intros q1 e H1 H3. unfold compute_breakpoints. simpl String.eqb. cbv iota.
    rewrite H1, H3. reflexivity.
  - eexists. reflexivity.
Qed.

End BreakpointErrors.

Section EvaluatorOutput.

Context {judge : Judge} {parser : FloatParser}.

Lemma evaluate_response_run
    (question response true_answer : string) (out : list string) :
  let faithfulness_reply :=
    chat_completion evaluator_system_prompt
      (faithfulness_prompt_format question response true_answer
         SCORE_FULL SCORE_PARTIAL SCORE_NONE) in
  let relevancy_reply :=
    chat_completion evaluator_system_prompt
      (relevancy_prompt_format question response
         SCORE_FULL SCORE_PARTIAL SCORE_NONE) in
  evaluate_response question response true_answer out
  = (Ok (match parse_float (strip faithfulness_reply) with
         | Some x => x
         | None => 0%float
         end,
         match parse_float (strip relevancy_reply) with
         | Some x => x
         | None => 0%float
         end),
     out
     ++ (match parse_float (strip faithfulness_reply) with
         | Some _ => []
         | None => [faithfulness_warning]
         end)
     ++ (match parse_float (strip relevancy_reply) with
         | Some _ => []
         | None => [relevancy_warning]
         end)).
Proof.
  intros faithfulness_reply relevancy_reply.
  unfold evaluate_response. fold faithfulness_reply relevancy_reply.
  unfold IO.bind at 1. rewrite parse_or_default.
  destruct (parse_float (strip faithfulness_reply));
    unfold IO.bind at 1; rewrite parse_or_default;
    destruct (parse_float (strip relevancy_reply)); simpl;
    rewrite ?app_nil_r, <- ?app_assoc; reflexivity.
Qed.

(** X15.  What the evaluator prints: it appends to the output the
    faithfulness warning when the faithfulness reply does not parse, then
    the relevancy warning when the relevancy reply does not parse, and
    nothing else; nothing at all when both replies parse. *)
Theorem evaluate_response_output
    (question response true_answer : string) (out : list string) :
  let faithfulness_reply :=
    chat_completion evaluator_system_prompt
      (faithfulness_prompt_format question response true_answer
         SCORE_FULL SCORE_PARTIAL SCORE_NONE) in
  let relevancy_reply :=
    chat_completion evaluator_system_prompt
      (relevancy_prompt_format question response
         SCORE_FULL SCORE_PARTIAL SCORE_NONE) in
  snd (evaluate_response question response true_answer out)
  = out
    ++ (match parse_float (strip faithfulness_reply) with
        | Some _ => []
        | None => [faithfulness_warning]
        end)
    ++ (match parse_float (strip relevancy_reply) with
        | Some _ => []
        | None => [relevancy_warning]
        end).
Proof.
  cbv zeta. rewrite evaluate_response_run. reflexivity.
Qed.

End EvaluatorOutput.

Lemma lstrip_head (s : string) (c : ascii) (t : string) :
  lstrip s = String c t -> is_space c = false.
Proof.
  induction s as [|x s IH]; simpl; [discriminate|].
  destruct (is_space x) eqn:E; [exact IH|].
  intros H. injection H as <- _. exact E.
Qed.

Lemma rstrip_last (s : string) (pre : string) (c : ascii) :
  rstrip s = (pre ++ String c EmptyString)%string -> is_space c = false.
Proof.
  revert pre. induction s as [|x s IH]; intros pre; simpl.
  - destruct pre; discriminate.
  - destruct (rstrip s) as [|y t'] eqn:E.
    + destruct (is_space x) eqn:Ex.
      * destruct pre; discriminate.
      * destruct pre as [|p pre']; simpl; intros H.
        -- injection H as <-. exact Ex.
        -- injection H as _ H. destruct pre'; discriminate.
    + destruct pre as [|p pre']; simpl; intros H.
      * injection H as _ H. discriminate.
      * injection H as _ H. apply (IH pre'). exact H.
Qed.

Lemma rstrip_head (c : ascii) (t : string) :
  is_space c = false -> exists t', rstrip (String c t) = String c t'.
Proof.
  intros H. simpl. destruct (rstrip t); [rewrite H|]; eexists; reflexivity.
Qed.

Lemma rstrip_fixed (s : string) :
  (forall pre c, s = (pre ++ String c EmptyString)%string -> is_space c = false) ->
  rstrip s = s.
Proof.
  induction s as [|x s IH]; intros H; [reflexivity|].
  simpl. rewrite IH.
  - destruct s as [|y s']; [|reflexivity].
    rewrite (H EmptyString x eq_refl). reflexivity.
  - intros pre c Hs. apply (H (String x pre) c). simpl. rewrite Hs. reflexivity.
Qed.

Lemma lstrip_fixed (s : string) :
  (forall c t, s = String c t -> is_space c = false) -> lstrip s = s.
Proof.
  destruct s as [|x s]; intros H; [reflexivity|].
  simpl. rewrite (H x s eq_refl). reflexivity.
Qed.

Lemma strip_edges (s : string) :
  (forall c t, strip s = String c t -> is_space c = false) /\
  (forall pre c, strip s = (pre ++ String c EmptyString)%string -> is_space c = false).
Proof.
  unfold strip. split.
  - intros c t H. destruct (lstrip s) as [|x u] eqn:E; [discriminate|].
    pose proof (lstrip_head s x u E) as Hx.
    destruct (rstrip_head x u Hx) as [t' Ht]. rewrite Ht in H.
    injection H as <- _. exact Hx.
  - intros pre c H. eapply rstrip_last. exact H.
Qed.

Section Extraction.

Context {reader : PdfReader}.

(** X16.  The extracted text neither starts nor ends with white space
    (stripping it again changes nothing), and a document without pages
    gives the empty text. *)
Theorem extract_text_from_pdf_stripped (pdf_path : string) :
  let text := extract_text_from_pdf pdf_path in
  (forall c t, text = String c t -> is_space c = false) /\
  (forall pre c, text = (pre ++ String c EmptyString)%string -> is_space c = false) /\
  strip text = text /\
  (page_texts pdf_path = [] -> text = EmptyString).
Proof.
  cbv zeta. unfold extract_text_from_pdf.
  set (all_text := fold_left _ (page_texts pdf_path) EmptyString).
  destruct (strip_edges all_text) as [Hh Hl].
  split; [exact Hh|]. split; [exact Hl|]. split.
  - unfold strip at 1. rewrite lstrip_fixed by exact Hh. apply rstrip_fixed. exact Hl.
  - intros H. unfold all_text. rewrite H. reflexivity.
Qed.

End Extraction.

Example extract_text_from_pdf_examples :
  extract_text_from_pdf (reader := toy_reader) "doc.pdf"
    = "First page.  Second page."%string /\
  extract_text_from_pdf (reader := toy_reader) "other.pdf" = ""%string.
Proof. split; reflexivity. Qed.

